(** * GF1 device class (gf1device.cpp, version 1.0.0): register programming

    A shallow embedding of the driver of the GF1 function generator and the
    properties of its register frames, unit conversions and control-line
    sequencing.  gf1device.cpp holds version 0.2.1 and version 1.0.0 of the
    class; the embedding follows 1.0.0.  [setAmplitude], [setFrequency] and
    [hardwareRevision] of 0.2.1 make the same calls in the same order, with
    the GPIO writes of [clearCtrlInterrupt], [toggleInterrupt] and
    [toggleCtrl] written out in place.

    - The driver talks to the world only through the CP2130 bridge object
      [cp2130_].  Every call made on the bridge is recorded, in order, in a
      trace; the error counter and the error string that every method
      threads by reference are part of the state.  The counter is an [int]
      in the source and an integer of [Z] here, every addition to it
      reduced to the 32-bit two's complement range: C++ leaves the overflow
      of an [int] undefined, and the compiled code wraps around.
    - A C++ [float] is modelled by the rational number it denotes, and every
      single-precision operation by the exact operation followed by rounding
      to the nearest binary32 value, ties to even (IEEE 754), as on the
      targets that evaluate [float] expressions in single precision; the
      [double] addition of [0.5] is rounded to binary64 in the same way.
      The [float] argument of [setAmplitude] and of [setFrequency] may also
      be an infinity or a NaN: the range checks refuse an infinite argument
      like any other value out of range, and a NaN, with which every
      comparison is false, passes them.
    - [uint8_t] and [uint32_t] values are integers of [Z], the conversions
      into them written out as reductions modulo [2^8] and [2^32]. *)

From Stdlib Require Import ZArith QArith Qround Qabs Qpower Qreduction.
From Stdlib Require Import Bool List String Ascii DecimalString Lia Lqa.
From Stdlib Require DecimalPos DecimalZ.
From Stdlib Require Import Floats.SpecFloat.
Import ListNotations.

Local Open Scope Z_scope.

(* ================================================================== *)
(** * IEEE 754 binary formats over the rationals *)
(* ================================================================== *)

Module IEEE754.

Local Open Scope Q_scope.

(** [Qlog2 x] is the integer [k] with [2^k <= x < 2^(k+1)], for [0 < x]. *)
Definition Qlog2 (x : Q) : Z :=
  let l := (Z.log2 (Qnum x) - Z.log2 (Zpos (Qden x)))%Z in
  if Qle_bool (2 ^ l) x then l else (l - 1)%Z.

(** Nearest integer, ties to the even one. *)
Definition rne (s : Q) : Z :=
  let f := Qfloor s in
  match Qcompare (s - inject_Z f) (1 # 2) with
  | Lt => f
  | Gt => (f + 1)%Z
  | Eq => if Z.even f then f else (f + 1)%Z
  end.

Section Format.

(** [prec] is the number of significand bits, [emin] the exponent of the
    least positive (subnormal) number.  Overflow to infinity is not
    modelled: the driver never computes beyond [2^39]. *)
Variables prec emin : Z.

(** Exponent of the unit in the last place of [x]. *)
Definition fexp (x : Q) : Z := Z.max (Qlog2 (Qabs x) - (prec - 1)) emin.

(** Rounding to nearest, ties to even. *)
Definition rnd (x : Q) : Q :=
  let e := fexp x in Qred (inject_Z (rne (x / 2 ^ e)) * 2 ^ e).

(** [x] is a number of the format. *)
Definition representable (x : Q) : bool := Qeq_bool (rnd x) x.

End Format.

(** binary32, the C++ [float]. *)
Definition round32 : Q -> Q := rnd 24 (-149).
Definition binary32 : Q -> bool := representable 24 (-149).

(** binary64, the C++ [double]. *)
Definition round64 : Q -> Q := rnd 53 (-1074).

Definition fmul (a b : Q) : Q := round32 (a * b).
Definition fdiv (a b : Q) : Q := round32 (a / b).
Definition dadd (a b : Q) : Q := round64 (a + b).

(** Conversion of an unsigned integer to [float]. *)
Definition float_of_uint (n : Z) : Q := round32 (inject_Z n).

(** Conversion of a [float] to [double]: every binary32 number is a
    binary64 number. *)
Definition double_of_float (x : Q) : Q := x.

(** The comparison [a < b] of two floating values. *)
Definition Qltb (a b : Q) : bool := negb (Qle_bool b a).

(** A [float] as a caller may pass it: a number, an infinity or a NaN.  The
    two zeros are one number here: they compare equal and convert to the
    same integer. *)
Inductive float :=
| Finite (x : Q)
| Infinity (negative : bool)
| NaN.

Bind Scope Q_scope with float.

Coercion Finite : Q >-> float.

(** The comparison [a < b] of two [float]s.  It is false whenever one of
    them is a NaN. *)
Definition float_lt (a b : float) : bool :=
  match a, b with
  | Finite x, Finite y => Qltb x y
  | Finite _, Infinity negative => negb negative
  | Infinity negative, Finite _ => negative
  | Infinity negative, Infinity negative' => negative && negb negative'
  | NaN, _ | _, NaN => false
  end.

(** Truncation toward zero, the conversion of a floating value to an
    integer type. *)
Definition Qtrunc (x : Q) : Z :=
  if Qle_bool 0 x then Qfloor x else Qceiling x.

(** [static_cast<uintN_t>(x)] for a floating [x].  The C++ conversion is
    defined only if the truncated value fits the type; the reduction
    modulo [2^w] is what the usual targets do otherwise, and the theorems
    below show that the driver never leaves the type. *)
Definition uint_of_float (w : Z) (x : Q) : Z := (Qtrunc x mod 2 ^ w)%Z.

(** [std::round] on a [float]: nearest integer, halves away from zero.
    The result is a binary32 number, no rounding takes place. *)
Definition round_away (x : Q) : Q :=
  if Qle_bool 0 x then inject_Z (Qfloor (x + (1 # 2)))
  else inject_Z (Qceiling (x - (1 # 2))).

(** The value of a finite [spec_float] of the standard library's IEEE 754
    specification, used to check the operations above against it. *)
Definition SF2Q (x : spec_float) : Q :=
  match x with
  | S754_finite s m e => (if s then - inject_Z (Zpos m) else inject_Z (Zpos m)) * 2 ^ e
  | _ => 0
  end.

End IEEE754.

(* ================================================================== *)
(** * The CP2130 bridge, as the driver sees it *)
(* ================================================================== *)

Module CP2130.

(** Modelled from the spec: cp2130.h, which declares the SPI mode settings,
    is not among the sources.  A channel configuration holds the chip-select
    drive mode, the clock rate, the clock polarity and the clock phase; only
    the constants that the driver names are listed. *)
Inductive CSMode := CSMODEOD | CSMODEPP.
Inductive ClockFrequency := CFRQ12M.
Inductive ClockPolarity := CPOL0 | CPOL1.
Inductive ClockPhase := CPHA0 | CPHA1.

(** Modelled from the spec: [CP2130::SPIMode] (cp2130.h), the record of the
    four settings above. *)
Record SPIMode := {
  csmode : CSMode;
  cfrq : ClockFrequency;
  cpol : ClockPolarity;
  cpha : ClockPhase
}.

(** Modelled from the spec: [CP2130::USBConfig] (cp2130.h), of which the
    driver reads the major and the minor release number, two bytes. *)
Record USBConfig := { majrel : Z; minrel : Z }.

End CP2130.

(** What the driver does to the outside world: the calls on [cp2130_] that
    act on the device, and the [usleep] pauses between them. *)
Inductive event :=
| setGPIO2 (value : bool)
| setGPIO3 (value : bool)
| selectCS (channel : Z)
| disableCS (channel : Z)
| spiWrite (data : list Z) (endpointAddr : Z)
| configureSPIMode (channel : Z) (mode : CP2130.SPIMode)
| disableSPIDelays (channel : Z)
| resetBridge
| usleep (usec : Z).

(** The levels of the pins the events drive: GPIO.2 (CTRL), GPIO.3
    (INTERRUPT) and the chip selects. *)
Record pins := {
  gpio2 : bool;
  gpio3 : bool;
  cs : Z -> bool
}.

(** Modelled from the spec: the effect of a call on the pins is the
    bridge's (cp2130.cpp, not among the sources).  [setGPIO2] and [setGPIO3]
    set the level of their line; [selectCS] enables the chip select of one
    channel and disables all the others ("enabling one implicitly disables
    all others"), as the comments of the driver also say; [disableCS]
    disables the chip select of one channel. *)
Definition drive (p : pins) (e : event) : pins :=
  match e with
  | setGPIO2 v => {| gpio2 := v; gpio3 := gpio3 p; cs := cs p |}
  | setGPIO3 v => {| gpio2 := gpio2 p; gpio3 := v; cs := cs p |}
  | selectCS ch => {| gpio2 := gpio2 p; gpio3 := gpio3 p; cs := fun k => k =? ch |}
  | disableCS ch =>
      {| gpio2 := gpio2 p; gpio3 := gpio3 p;
         cs := fun k => if k =? ch then false else cs p k |}
  | _ => p
  end.

Definition drive_all (p : pins) (t : list event) : pins := fold_left drive t p.

(** ** Reading a trace *)

(** The level last written to GPIO.2, to GPIO.3. *)
Fixpoint last_gpio2 (t : list event) : option bool :=
  match t with
  | [] => None
  | e :: t' =>
      match last_gpio2 t' with
      | Some v => Some v
      | None => match e with setGPIO2 v => Some v | _ => None end
      end
  end.

Fixpoint last_gpio3 (t : list event) : option bool :=
  match t with
  | [] => None
  | e :: t' =>
      match last_gpio3 t' with
      | Some v => Some v
      | None => match e with setGPIO3 v => Some v | _ => None end
      end
  end.

(** Number of [disableCS ch] in a trace. *)
Fixpoint count_disable (ch : Z) (t : list event) : nat :=
  match t with
  | [] => O
  | disableCS k :: t' => if k =? ch then S (count_disable ch t') else count_disable ch t'
  | _ :: t' => count_disable ch t'
  end.

(** Every [selectCS ch] is followed, later in the trace, by exactly one
    [disableCS ch]. *)
Fixpoint cs_paired (t : list event) : bool :=
  match t with
  | [] => true
  | selectCS ch :: t' => Nat.eqb (count_disable ch t') 1 && cs_paired t'
  | _ :: t' => cs_paired t'
  end.

(** The event disables the chip select of channel [ch]: a [disableCS ch],
    or the selection of another channel. *)
Definition releases (ch : Z) (e : event) : bool :=
  match e with
  | disableCS k => k =? ch
  | selectCS k => negb (k =? ch)
  | _ => false
  end.

(** Every [selectCS ch] is followed, later in the trace, by exactly one
    event that disables the chip select of channel [ch]. *)
Fixpoint cs_released (t : list event) : bool :=
  match t with
  | [] => true
  | selectCS ch :: t' =>
      Nat.eqb (List.length (filter (releases ch) t')) 1 && cs_released t'
  | _ :: t' => cs_released t'
  end.

(** Every SPI transfer is followed at once by the 100 microsecond pause, and
    the pause by a change of chip select. *)
Fixpoint settled (t : list event) : bool :=
  match t with
  | [] => true
  | spiWrite _ _ :: t' =>
      match t' with
      | usleep 100 :: (disableCS _ | selectCS _) :: _ => settled t'
      | _ => false
      end
  | _ :: t' => settled t'
  end.

(** The trace selects some channel. *)
Definition selects (t : list event) : bool :=
  existsb (fun e => match e with selectCS _ => true | _ => false end) t.

(** The data of the SPI transfers of a trace, in order. *)
Fixpoint frames (t : list event) : list (list Z) :=
  match t with
  | [] => []
  | spiWrite data _ :: t' => data :: frames t'
  | _ :: t' => frames t'
  end.

(* ================================================================== *)
(** * The driver *)
(* ================================================================== *)

Module GF1Device.

Import IEEE754 CP2130.

(** ** Definitions (gf1device.cpp) *)

Definition EPOUT : Z := 0x01.
Definition FSTARTLSB : Z := 0xc0.
Definition FSTARTMSB : Z := 0xd0.
Definition AQUANTUM : Z := 255.
Definition FQUANTUM : Z := 16777216.
Definition MCLK : Q := 50000.

(** Modelled from the spec: gf1device.h, which declares the four limits
    below, is not among the sources.  Their values are those of the contract
    ("amplitude in [0, 5] V, frequency in [0, 25000] kHz"), which the error
    messages of [setAmplitude] and [setFrequency] and the comments of
    [expectedAmplitude] and [expectedFrequency] repeat; they are taken to
    be [float] constants, like [MCLK]. *)
Definition AMPLITUDE_MIN : Q := 0.

(** Modelled from the spec: the upper limit of the amplitude, 5 V
    (gf1device.h). *)
Definition AMPLITUDE_MAX : Q := 5.

(** Modelled from the spec: the lower limit of the frequency, 0 kHz
    (gf1device.h). *)
Definition FREQUENCY_MIN : Q := 0.

(** Modelled from the spec: the upper limit of the frequency, 25000 kHz
    (gf1device.h). *)
Definition FREQUENCY_MAX : Q := 25000.

(** ** State *)

(** [errcnt] and [errstr] are the two reference parameters of every
    method; [trace] holds the events so far, oldest first. *)
Record state := {
  errcnt : Z;
  errstr : string;
  trace : list event
}.

Definition newline : string := String (ascii_of_nat 10) EmptyString.

(** The limits of an [int]. *)
Definition INT_MIN : Z := - 2 ^ 31.
Definition INT_MAX : Z := 2 ^ 31 - 1.

(** The value an [int] takes when it is set to the sum [n].  Within the
    limits it is [n]; beyond them C++ leaves the result undefined, and the
    compiled code wraps around: [INT_MAX + 1] is [INT_MIN]. *)
Definition int_wrap (n : Z) : Z := (n + 2 ^ 31) mod 2 ^ 32 - 2 ^ 31.

(** A program logic error: [++errcnt; errstr += msg]. *)
Definition logic_error (msg : string) (s : state) : state :=
  {| errcnt := int_wrap (errcnt s + 1);
     errstr := errstr s ++ msg;
     trace := trace s |}.

Definition pause (usec : Z) (s : state) : state :=
  {| errcnt := errcnt s; errstr := errstr s; trace := trace s ++ [usleep usec] |}.

Definition andthen (f g : state -> state) : state -> state := fun s => g (f s).
Notation "f ;; g" := (andthen f g) (at level 61, left associativity).

(** ** Unit conversions *)

(** [amplitude * AQUANTUM / AMPLITUDE_MAX], a [float] expression. *)
Definition amplitudeQuotient (amplitude : Q) : Q :=
  fdiv (fmul amplitude (float_of_uint AQUANTUM)) AMPLITUDE_MAX.

(** [frequency * FQUANTUM / MCLK], a [float] expression. *)
Definition frequencyQuotient (frequency : Q) : Q :=
  fdiv (fmul frequency (float_of_uint FQUANTUM)) MCLK.

(** [static_cast<uint8_t>(amplitude * AQUANTUM / AMPLITUDE_MAX + 0.5)].
    For a NaN or an infinity the expression is a NaN or an infinity, whose
    conversion to an integer C++ leaves undefined; [0] is what the
    conversion instructions of the usual targets leave in the low byte.
    Nothing proved below depends on that value. *)
Definition amplitudeCode (amplitude : float) : Z :=
  match amplitude with
  | Finite v =>
      uint_of_float 8 (dadd (double_of_float (amplitudeQuotient v)) (1 # 2))
  | _ => 0
  end.

(** [static_cast<uint32_t>(frequency * FQUANTUM / MCLK + 0.5)], with the
    same reading of a NaN or an infinity. *)
Definition frequencyCode (frequency : float) : Z :=
  match frequency with
  | Finite f =>
      uint_of_float 32 (dadd (double_of_float (frequencyQuotient f)) (1 # 2))
  | _ => 0
  end.

Definition uint8 (n : Z) : Z := n mod 2 ^ 8.

(** The vector that [setFrequency] writes. *)
Definition frequencyFrame (frequencyCode : Z) : list Z :=
  [ 0x10; 0x00;
    0x20; 0x00; 0x30; 0x00;
    0x40; 0x00;
    uint8 (Z.lor FSTARTLSB (Z.land 0x0f (Z.shiftr frequencyCode 8)));
    uint8 frequencyCode;
    uint8 (Z.lor FSTARTMSB (Z.land 0x0f (Z.shiftr frequencyCode 20)));
    uint8 (Z.shiftr frequencyCode 12) ].

Definition expectedAmplitude (amplitude : Q) : Q :=
  fdiv (fmul (round_away (amplitudeQuotient amplitude)) AMPLITUDE_MAX)
       (float_of_uint AQUANTUM).

Definition expectedFrequency (frequency : Q) : Q :=
  fdiv (fmul (round_away (frequencyQuotient frequency)) MCLK)
       (float_of_uint FQUANTUM).

(** ** Hardware revision *)

Definition decimal (n : Z) : string := NilZero.string_of_int (Z.to_int n).

(** The letter appended by the first [if] of [hardwareRevision]. *)
Definition majorLetter (config : USBConfig) : string :=
  if (1 <? majrel config) && (majrel config <=? 27)
  then String (ascii_of_nat (Z.to_nat ((majrel config + 65 - 2) mod 256))) EmptyString
  else EmptyString.

(** The number appended by the second [if] of [hardwareRevision]. *)
Definition minorNumber (config : USBConfig) : string :=
  if (majrel config =? 1) || negb (minrel config =? 0)
  then decimal (minrel config)
  else EmptyString.

Definition hardwareRevision (config : USBConfig) : string :=
  (EmptyString ++ majorLetter config) ++ minorNumber config.

Section Driver.

(** The bridge.  A call on [cp2130_] may fail (transfer failure,
    disconnection); the bridge then adds to the error counter and to the
    error string.  What it reports for a call, given the events before
    it, is left arbitrary. *)
Variable cp2130_ : list event -> event -> Z * string.

Definition call (e : event) (s : state) : state :=
  let report := cp2130_ (trace s) e in
  {| errcnt := int_wrap (errcnt s + fst report);
     errstr := errstr s ++ snd report;
     trace := trace s ++ [e] |}.

Definition clearCtrlInterrupt : state -> state :=
  call (setGPIO2 false) ;; call (setGPIO3 false).

Definition toggleCtrl : state -> state :=
  call (setGPIO2 true) ;; call (setGPIO2 false).

Definition toggleInterrupt : state -> state :=
  call (setGPIO3 true) ;; call (setGPIO3 false).

Definition clear : state -> state :=
  clearCtrlInterrupt ;;
  call (selectCS 0) ;;
  call (spiWrite [ 0x0f; 0xdf;
                   0x10; 0x00;
                   0x20; 0x00; 0x30; 0x00;
                   0x40; 0x00;
                   0xc0; 0x00; 0xc0; 0x00 ] EPOUT) ;;
  pause 100 ;;
  call (selectCS 1) ;;
  call (spiWrite [ 0x00 ] EPOUT) ;;
  pause 100 ;;
  call (disableCS 1).

Definition reset : state -> state := call resetBridge.

Definition setAmplitude (amplitude : float) : state -> state :=
  if float_lt amplitude AMPLITUDE_MIN || float_lt AMPLITUDE_MAX amplitude
  then logic_error ("In setAmplitude(): Amplitude must be between 0 and 5." ++ newline)
  else
    call (selectCS 1) ;;
    call (spiWrite [ amplitudeCode amplitude ] EPOUT) ;;
    pause 100 ;;
    call (disableCS 1).

Definition setFrequency (frequency : float) : state -> state :=
  if float_lt frequency FREQUENCY_MIN || float_lt FREQUENCY_MAX frequency
  then logic_error ("In setFrequency(): Frequency must be between 0 and 25000." ++ newline)
  else
    clearCtrlInterrupt ;;
    toggleInterrupt ;;
    call (selectCS 0) ;;
    call (spiWrite (frequencyFrame (frequencyCode frequency)) EPOUT) ;;
    pause 100 ;;
    call (disableCS 0) ;;
    toggleCtrl.

Definition setSineWave : state -> state :=
  clearCtrlInterrupt ;;
  call (selectCS 0) ;;
  call (spiWrite [ 0x0f; 0xdf ] EPOUT) ;;
  pause 100 ;;
  call (disableCS 0) ;;
  toggleCtrl.

Definition setTriangleWave : state -> state :=
  clearCtrlInterrupt ;;
  call (selectCS 0) ;;
  call (spiWrite [ 0x0d; 0xdf ] EPOUT) ;;
  pause 100 ;;
  call (disableCS 0) ;;
  toggleCtrl.

Definition setupChannel0 : state -> state :=
  let mode := {| csmode := CSMODEPP; cfrq := CFRQ12M; cpol := CPOL1; cpha := CPHA0 |} in
  call (configureSPIMode 0 mode) ;;
  call (disableSPIDelays 0).

Definition setupChannel1 : state -> state :=
  let mode := {| csmode := CSMODEPP; cfrq := CFRQ12M; cpol := CPOL0; cpha := CPHA0 |} in
  call (configureSPIMode 1 mode) ;;
  call (disableSPIDelays 1).

Definition start : state -> state :=
  clearCtrlInterrupt ;; toggleCtrl.

Definition stop : state -> state :=
  clearCtrlInterrupt ;; toggleInterrupt.

(** ** The operations that act on the device *)

(** The methods that write to the device.  The remaining public methods
    (the descriptor, version and status queries, [open], [close] and
    [listDevices]) hand their call to the bridge and return what it
    returns; they touch neither a chip select nor a GPIO and are left out. *)
Inductive operation :=
| op_clear
| op_reset
| op_setAmplitude (amplitude : float)
| op_setFrequency (frequency : float)
| op_setSineWave
| op_setTriangleWave
| op_setupChannel0
| op_setupChannel1
| op_start
| op_stop.

Definition exec (o : operation) : state -> state :=
  match o with
  | op_clear => clear
  | op_reset => reset
  | op_setAmplitude amplitude => setAmplitude amplitude
  | op_setFrequency frequency => setFrequency frequency
  | op_setSineWave => setSineWave
  | op_setTriangleWave => setTriangleWave
  | op_setupChannel0 => setupChannel0
  | op_setupChannel1 => setupChannel1
  | op_start => start
  | op_stop => stop
  end.

(** The events of one operation: what it adds to the trace. *)
Definition issued (o : operation) (s : state) : list event :=
  skipn (List.length (trace s)) (trace (exec o s)).

End Driver.

(** The guard of [setAmplitude] and of [setFrequency]: the argument is out
    of range and the call is refused. *)
Definition rejected (o : operation) : bool :=
  match o with
  | op_setAmplitude amplitude =>
      float_lt amplitude AMPLITUDE_MIN || float_lt AMPLITUDE_MAX amplitude
  | op_setFrequency frequency =>
      float_lt frequency FREQUENCY_MIN || float_lt FREQUENCY_MAX frequency
  | _ => false
  end.

(** The operations that drive GPIO.2 (CTRL) or GPIO.3 (INTERRUPT). *)
Definition drives_control (o : operation) : bool :=
  match o with
  | op_setFrequency _ | op_setSineWave | op_setTriangleWave
  | op_clear | op_start | op_stop => true
  | _ => false
  end.

End GF1Device.

(** A bridge on which every call succeeds, and a fresh state. *)
Definition quiet : list event -> event -> Z * string :=
  fun _ _ => (0, EmptyString).

Definition fresh : GF1Device.state :=
  {| GF1Device.errcnt := 0; GF1Device.errstr := EmptyString; GF1Device.trace := [] |}.

(* ================================================================== *)
(** * Runs of operations, error reports and the pins during a transfer *)
(* ================================================================== *)

(** The events that are calls on the bridge: all but the pauses. *)
Definition is_call (e : event) : bool :=
  match e with usleep _ => false | _ => true end.

(** What the bridge reports for the calls among [evs], issued after the
    trace [t]: the counts added up, the messages one after the other. *)
Fixpoint reports (cp2130_ : list event -> event -> Z * string)
         (t evs : list event) : Z * string :=
  match evs with
  | [] => (0, EmptyString)
  | e :: evs' =>
      let r := if is_call e then cp2130_ t e else (0, EmptyString) in
      let r' := reports cp2130_ (t ++ [e]) evs' in
      (fst r + fst r', (snd r ++ snd r')%string)
  end.

(** From [s] to [s'] the trace has grown by some events, and the error
    counter, an [int], and the error string by what the bridge reported
    for them. *)
Definition passed_on (cp2130_ : list event -> event -> Z * string)
           (s s' : GF1Device.state) : Prop :=
  exists evs,
    GF1Device.trace s' = GF1Device.trace s ++ evs /\
    GF1Device.errcnt s' =
      GF1Device.int_wrap
        (GF1Device.errcnt s + fst (reports cp2130_ (GF1Device.trace s) evs)) /\
    GF1Device.errstr s' =
      (GF1Device.errstr s ++ snd (reports cp2130_ (GF1Device.trace s) evs))%string.


(** The message of a refused [setAmplitude] or [setFrequency]. *)
Definition refusal (o : GF1Device.operation) : string :=
  match o with
  | GF1Device.op_setAmplitude _ =>
      ("In setAmplitude(): Amplitude must be between 0 and 5." ++ GF1Device.newline)%string
  | GF1Device.op_setFrequency _ =>
      ("In setFrequency(): Frequency must be between 0 and 25000." ++ GF1Device.newline)%string
  | _ => EmptyString
  end.

(** One operation after the other. *)
Definition run_all (cp2130_ : list event -> event -> Z * string)
           (os : list GF1Device.operation) (s : GF1Device.state) : GF1Device.state :=
  fold_left (fun s o => GF1Device.exec cp2130_ o s) os s.

(** Both control lines low and no chip select enabled. *)
Definition at_rest (p : pins) : Prop :=
  gpio2 p = false /\ gpio3 p = false /\ forall k, cs p k = false.

(** The SPI transfers of a trace, each with the pins as they are when it is
    made, starting from the pins [p]. *)
Fixpoint spi_writes (p : pins) (t : list event) : list (pins * list Z) :=
  match t with
  | [] => []
  | spiWrite data ep :: t' => (p, data) :: spi_writes (drive p (spiWrite data ep)) t'
  | e :: t' => spi_writes (drive p e) t'
  end.

(** The register prefixes (high four bits of the first byte) of the two-byte
    words of a frame of the AD5932. *)
Fixpoint prefixes (frame : list Z) : list Z :=
  match frame with
  | hi :: _ :: rest => hi / 16 :: prefixes rest
  | _ => []
  end.

(** The number of times a control line goes from low to high over the
    events [t], starting from the pins [p]. *)
Fixpoint rises (line : pins -> bool) (p : pins) (t : list event) : nat :=
  match t with
  | [] => 0
  | e :: t' =>
      (if negb (line p) && line (drive p e) then 1 else 0) +
      rises line (drive p e) t'
  end.


(** ** Version 0.2.1 *)

(** [setAmplitude] and [setFrequency] as version 0.2.1 of the class has
    them: the GPIO writes are made in place, there being no
    [clearCtrlInterrupt], [toggleInterrupt] or [toggleCtrl] yet. *)
Module GF1Device_0_2_1.

Import IEEE754 GF1Device.

Section Driver.

Variable cp2130_ : list event -> event -> Z * string.

Definition setAmplitude (amplitude : float) : state -> state :=
  if float_lt amplitude AMPLITUDE_MIN || float_lt AMPLITUDE_MAX amplitude
  then logic_error ("In setAmplitude(): Amplitude must be between 0 and 5." ++ newline)
  else
    call cp2130_ (selectCS 1) ;;
    call cp2130_ (spiWrite [ amplitudeCode amplitude ] EPOUT) ;;
    pause 100 ;;
    call cp2130_ (disableCS 1).

Definition setFrequency (frequency : float) : state -> state :=
  if float_lt frequency FREQUENCY_MIN || float_lt FREQUENCY_MAX frequency
  then logic_error ("In setFrequency(): Frequency must be between 0 and 25000." ++ newline)
  else
    call cp2130_ (setGPIO2 false) ;;
    call cp2130_ (setGPIO3 false) ;;
    call cp2130_ (setGPIO3 true) ;;
    call cp2130_ (setGPIO3 false) ;;
    call cp2130_ (selectCS 0) ;;
    call cp2130_ (spiWrite (frequencyFrame (frequencyCode frequency)) EPOUT) ;;
    pause 100 ;;
    call cp2130_ (disableCS 0) ;;
    call cp2130_ (setGPIO2 true) ;;
    call cp2130_ (setGPIO2 false).

End Driver.

End GF1Device_0_2_1.


(* ================================================================== *)
(** * Rounding: order, error and exactness *)
(* ================================================================== *)

Module IEEE754Facts.

Import IEEE754.
Local Open Scope Q_scope.

Lemma pow2_pos (e : Z) : 0 < 2 ^ e.
Proof. apply Qpower_0_lt; reflexivity. Qed.

Lemma pow2_add (a b : Z) : 2 ^ (a + b) == 2 ^ a * 2 ^ b.
Proof. apply Qpower_plus; discriminate. Qed.

Lemma pow2_sub (a b : Z) : 2 ^ (a - b) == 2 ^ a / 2 ^ b.
Proof.
  unfold Z.sub. rewrite pow2_add, Qpower_opp. reflexivity.
Qed.

Lemma pow2_succ (a : Z) : 2 ^ (a + 1) == 2 * 2 ^ a.
Proof. rewrite pow2_add. change (2 ^ 1) with 2. ring. Qed.

Lemma pow2_le (a b : Z) : (a <= b)%Z -> 2 ^ a <= 2 ^ b.
Proof. intros H; apply Qpower_le_compat_l; [exact H | discriminate]. Qed.

Lemma pow2_lt (a b : Z) : (a < b)%Z -> 2 ^ a < 2 ^ b.
Proof. intros H; apply Qpower_lt_compat_l; [exact H | reflexivity]. Qed.

Lemma pow2_lt_inv (a b : Z) : 2 ^ a < 2 ^ b -> (a < b)%Z.
Proof. intros H; apply (Qpower_lt_compat_l_inv 2); [exact H | reflexivity]. Qed.

Lemma pow2_Z (a : Z) : (0 <= a)%Z -> 2 ^ a == inject_Z (2 ^ a).
Proof. intros H. rewrite Zpower_Qpower by exact H. reflexivity. Qed.

(** ** The binary logarithm *)

Lemma Qlog2_spec (x : Q) : 0 < x -> 2 ^ Qlog2 x <= x /\ x < 2 ^ (Qlog2 x + 1).
Proof.
  intros Hx. destruct x as [n d].
  assert (Hn : (0 < n)%Z).
  { unfold Qlt in Hx; simpl in Hx. lia. }
  unfold Qlog2; cbn [Qnum Qden].
  set (a := Z.log2 n). set (b := Z.log2 (Zpos d)).
  destruct (Z.log2_spec n Hn) as [Ha1 Ha2]. fold a in Ha1, Ha2.
  destruct (Z.log2_spec (Zpos d) (Pos2Z.is_pos d)) as [Hb1 Hb2]. fold b in Hb1, Hb2.
  assert (Ha0 : (0 <= a)%Z) by apply Z.log2_nonneg.
  assert (Hb0 : (0 <= b)%Z) by apply Z.log2_nonneg.
  assert (HA1 : 2 ^ a <= inject_Z n).
  { rewrite pow2_Z by exact Ha0. rewrite <- Zle_Qle. exact Ha1. }
  assert (HA2 : inject_Z n < 2 * 2 ^ a).
  { rewrite <- pow2_succ. rewrite pow2_Z by lia. rewrite <- Zlt_Qlt.
    replace (a + 1)%Z with (Z.succ a) by lia. exact Ha2. }
  assert (HB1 : 2 ^ b <= inject_Z (Zpos d)).
  { rewrite pow2_Z by exact Hb0. rewrite <- Zle_Qle. exact Hb1. }
  assert (HB2 : inject_Z (Zpos d) < 2 * 2 ^ b).
  { rewrite <- pow2_succ. rewrite pow2_Z by lia. rewrite <- Zlt_Qlt.
    replace (b + 1)%Z with (Z.succ b) by lia. exact Hb2. }
  assert (HX : (n # d) * inject_Z (Zpos d) == inject_Z n).
  { unfold Qeq, Qmult, inject_Z; simpl. lia. }
  assert (HP : 2 ^ a == 2 ^ (a - b) * 2 ^ b).
  { rewrite <- pow2_add. replace (a - b + b)%Z with a by lia. reflexivity. }
  pose proof (pow2_pos (a - b)) as HPp.
  pose proof (pow2_pos b) as HBp.
  set (x := n # d) in *. set (D := inject_Z (Zpos d)) in *.
  set (N := inject_Z n) in *.
  set (P := 2 ^ (a - b)) in *. set (B := 2 ^ b) in *. set (A := 2 ^ a) in *.
  destruct (Qle_bool P x) eqn:E.
  - apply Qle_bool_iff in E. split; [exact E|].
    rewrite pow2_succ. fold P.
    destruct (Qlt_le_dec x (2 * P)) as [H|H]; [exact H|exfalso].
    assert (2 * P * B <= x * D) by nra.
    nra.
  - assert (E' : x < P).
    { destruct (Qlt_le_dec x P) as [H|H]; [exact H|].
      apply Qle_bool_iff in H. congruence. }
    split.
    + assert (HP2 : P == 2 * 2 ^ (a - b - 1)).
      { unfold P. rewrite <- pow2_succ.
        replace (a - b - 1 + 1)%Z with (a - b)%Z by lia. reflexivity. }
      destruct (Qlt_le_dec x (2 ^ (a - b - 1))) as [H|H]; [exfalso|exact H].
      set (P' := 2 ^ (a - b - 1)) in *.
      assert (x * D < P' * (2 * B)) by nra.
      nra.
    + replace (a - b - 1 + 1)%Z with (a - b)%Z by lia. exact E'.
Qed.

Lemma Qlog2_unique (x : Q) (k : Z) :
  2 ^ k <= x -> x < 2 ^ (k + 1) -> Qlog2 x = k.
Proof.
  intros H1 H2.
  assert (Hx : 0 < x) by (pose proof (pow2_pos k); lra).
  destruct (Qlog2_spec x Hx) as [L1 L2].
  assert (Qlog2 x < k + 1)%Z by (apply pow2_lt_inv; lra).
  assert (k < Qlog2 x + 1)%Z by (apply pow2_lt_inv; lra).
  lia.
Qed.

Lemma Qlog2_comp (x y : Q) : 0 < x -> x == y -> Qlog2 x = Qlog2 y.
Proof.
  intros Hx E. symmetry. destruct (Qlog2_spec x Hx) as [L1 L2].
  apply Qlog2_unique; rewrite <- E; assumption.
Qed.

Lemma Qlog2_le (x y : Q) : 0 < x -> x <= y -> (Qlog2 x <= Qlog2 y)%Z.
Proof.
  intros Hx Hxy.
  destruct (Qlog2_spec x Hx) as [X1 X2].
  destruct (Qlog2_spec y) as [Y1 Y2]; [lra|].
  assert (Qlog2 x < Qlog2 y + 1)%Z by (apply pow2_lt_inv; lra).
  lia.
Qed.

Lemma Qlog2_lt_pow2 (x : Q) (k : Z) : 0 < x -> x < 2 ^ k -> (Qlog2 x < k)%Z.
Proof.
  intros Hx H. destruct (Qlog2_spec x Hx) as [X1 X2].
  apply pow2_lt_inv; lra.
Qed.

Lemma Qlog2_ge_pow2 (x : Q) (k : Z) : 2 ^ k <= x -> (k <= Qlog2 x)%Z.
Proof.
  intros H.
  assert (Hx : 0 < x) by (pose proof (pow2_pos k); lra).
  destruct (Qlog2_spec x Hx) as [X1 X2].
  assert (k < Qlog2 x + 1)%Z by (apply pow2_lt_inv; lra).
  lia.
Qed.

Lemma Qlog2_scale (x : Q) (k : Z) : 0 < x -> Qlog2 (x * 2 ^ k) = (Qlog2 x + k)%Z.
Proof.
  intros Hx. destruct (Qlog2_spec x Hx) as [X1 X2].
  pose proof (pow2_pos k) as Hk.
  apply Qlog2_unique.
  - rewrite pow2_add. nra.
  - replace (Qlog2 x + k + 1)%Z with ((Qlog2 x + 1) + k)%Z by lia.
    rewrite pow2_add. nra.
Qed.

(** ** Nearest integer *)

Lemma rne_comp (s t : Q) : s == t -> rne s = rne t.
Proof.
  intros E. unfold rne. rewrite (Qfloor_comp _ _ E).
  rewrite E. reflexivity.
Qed.

Lemma rne_error (s : Q) : Qabs (inject_Z (rne s) - s) <= 1 # 2.
Proof.
  pose proof (Qfloor_le s) as F1. pose proof (Qlt_floor s) as F2.
  rewrite inject_Z_plus in F2. change (inject_Z 1) with 1 in F2.
  apply Qabs_Qle_condition. unfold rne.
  destruct (Qcompare_spec (s - inject_Z (Qfloor s)) (1 # 2)) as [E|E|E].
  - destruct (Z.even (Qfloor s)).
    + split; lra.
    + rewrite inject_Z_plus. change (inject_Z 1) with 1. split; lra.
  - split; lra.
  - rewrite inject_Z_plus. change (inject_Z 1) with 1. split; lra.
Qed.

Lemma rne_Z (k : Z) : rne (inject_Z k) = k.
Proof.
  unfold rne. rewrite Qfloor_Z.
  destruct (Qcompare_spec (inject_Z k - inject_Z k) (1 # 2)) as [E|E|E];
    [exfalso; lra | reflexivity | exfalso; lra].
Qed.

Lemma rne_le (s t : Q) : s <= t -> (rne s <= rne t)%Z.
Proof.
  intros H.
  destruct (Qeq_dec s t) as [E|NE]; [rewrite (rne_comp _ _ E); lia|].
  pose proof (rne_error s) as Es. pose proof (rne_error t) as Et.
  apply Qabs_Qle_condition in Es. apply Qabs_Qle_condition in Et.
  destruct (Z_lt_le_dec (rne t) (rne s)) as [C|C]; [exfalso|exact C].
  assert (C' : inject_Z (rne t) + 1 <= inject_Z (rne s)).
  { change 1 with (inject_Z 1). rewrite <- inject_Z_plus, <- Zle_Qle. lia. }
  assert (s == t) by lra. contradiction.
Qed.


(** ** Rounding to a format *)

Section Rounding.

Variables prec emin : Z.
Hypothesis prec_pos : (1 <= prec)%Z.

Local Abbreviation fexp := (fexp prec emin).
Local Abbreviation rnd := (rnd prec emin).

Lemma rnd_eq (x : Q) :
  rnd x == inject_Z (rne (x / 2 ^ fexp x)) * 2 ^ fexp x.
Proof. unfold IEEE754.rnd. apply Qred_correct. Qed.

Lemma fexp_pos (x : Q) :
  0 < x -> fexp x = Z.max (Qlog2 x - (prec - 1)) emin.
Proof.
  intros Hx. unfold IEEE754.fexp.
  rewrite (Qlog2_comp (Qabs x) x); [reflexivity| |apply Qabs_pos; lra].
  rewrite Qabs_pos; lra.
Qed.

Lemma fexp_comp (x y : Q) : 0 < x -> x == y -> fexp x = fexp y.
Proof.
  intros Hx E. rewrite !fexp_pos by lra.
  rewrite (Qlog2_comp x y Hx E). reflexivity.
Qed.

Lemma rnd_zero (x : Q) : x == 0 -> rnd x == 0.
Proof.
  intros E. rewrite rnd_eq.
  rewrite (rne_comp _ (inject_Z 0)), rne_Z; [ring|].
  generalize (2 ^ fexp x). intros P.
  rewrite E. unfold Qdiv. change (inject_Z 0) with 0. ring.
Qed.

Lemma rnd_comp (x y : Q) : 0 <= x -> x == y -> rnd x == rnd y.
Proof.
  intros Hx E. destruct (Qeq_dec x 0) as [Hz|NZ].
  - rewrite (rnd_zero x Hz), (rnd_zero y); [reflexivity | lra].
  - assert (0 < x) by lra.
    rewrite !rnd_eq, <- (fexp_comp x y) by assumption.
    rewrite (rne_comp (x / 2 ^ fexp x) (y / 2 ^ fexp x)); [reflexivity|].
    generalize (2 ^ fexp x). intros P. rewrite E; reflexivity.
Qed.

Lemma rnd_exact (x : Q) (n : Z) :
  x == inject_Z n * 2 ^ fexp x -> rnd x == x.
Proof.
  intros E. rewrite rnd_eq.
  rewrite (rne_comp _ (inject_Z n)), rne_Z; [symmetry; exact E|].
  pose proof (pow2_pos (fexp x)) as Hp.
  rewrite E at 1. field. lra.
Qed.

Lemma rnd_nonneg (x : Q) : 0 <= x -> 0 <= rnd x.
Proof.
  intros Hx. rewrite rnd_eq.
  pose proof (pow2_pos (fexp x)) as Hp.
  assert (H : (rne (inject_Z 0) <= rne (x / 2 ^ fexp x))%Z).
  { apply rne_le. change (inject_Z 0) with 0.
    apply Qle_shift_div_l; [exact Hp | lra]. }
  rewrite rne_Z in H. rewrite Zle_Qle in H.
  change (inject_Z 0) with 0 in H. nra.
Qed.

(** The rounding error is at most half a unit in the last place. *)
Lemma rnd_error_fexp (x : Q) : Qabs (rnd x - x) <= 2 ^ fexp x / 2.
Proof.
  pose proof (rne_error (x / 2 ^ fexp x)) as H.
  apply Qabs_Qle_condition in H.
  pose proof (pow2_pos (fexp x)) as Hp.
  rewrite rnd_eq. apply Qabs_Qle_condition.
  set (P := 2 ^ fexp x) in *.
  assert (E : x == (x / P) * P) by (field; lra).
  set (m := x / P) in *. set (n := inject_Z (rne m)) in *.
  split.
  - setoid_replace (n * P - x) with ((n - m) * P) by (rewrite E at 1; ring).
    setoid_replace (- (P / 2)) with ((- (1 # 2)) * P) by field. nra.
  - setoid_replace (n * P - x) with ((n - m) * P) by (rewrite E at 1; ring).
    setoid_replace (P / 2) with ((1 # 2) * P) by field. nra.
Qed.

Lemma rnd_pow2 (k : Z) :
  (emin <= k - (prec - 1))%Z -> rnd (2 ^ k) == 2 ^ k.
Proof.
  intros Hk. pose proof (pow2_pos k) as Hp.
  assert (L : Qlog2 (2 ^ k) = k).
  { apply Qlog2_unique; [lra | apply pow2_lt; lia]. }
  assert (F : fexp (2 ^ k) = (k - (prec - 1))%Z).
  { rewrite fexp_pos by exact Hp. rewrite L. lia. }
  apply (rnd_exact _ (2 ^ (prec - 1))). rewrite F.
  rewrite <- pow2_Z by lia. rewrite <- pow2_add.
  replace (prec - 1 + (k - (prec - 1)))%Z with k by lia. reflexivity.
Qed.

(** The rounding error below [2^k]. *)
Lemma rnd_error_le (x : Q) (k : Z) :
  0 <= x -> x <= 2 ^ k ->
  Qabs (rnd x - x) <= 2 ^ (Z.max (k - prec) emin - 1).
Proof.
  intros H0 Hk.
  assert (HE : forall e, (e <= Z.max (k - prec) emin)%Z ->
                         2 ^ e / 2 <= 2 ^ (Z.max (k - prec) emin - 1)).
  { intros e He. rewrite pow2_sub. change (2 ^ 1) with 2.
    pose proof (pow2_le _ _ He). apply Qmult_le_compat_r; [assumption|].
    discriminate. }
  destruct (Qeq_dec x 0) as [Hz|NZ].
  { rewrite (rnd_zero x Hz), Hz.
    setoid_replace (0 - 0) with 0 by ring. simpl.
    apply Qlt_le_weak, pow2_pos. }
  assert (Hx : 0 < x) by lra.
  destruct (Qlt_le_dec x (2 ^ k)) as [Hlt|Hge].
  - eapply Qle_trans; [apply rnd_error_fexp|]. apply HE.
    rewrite fexp_pos by exact Hx.
    pose proof (Qlog2_lt_pow2 x k Hx Hlt). lia.
  - assert (E : x == 2 ^ k) by lra.
    destruct (Z_le_gt_dec emin (k - (prec - 1))) as [C|C].
    + rewrite (rnd_comp x (2 ^ k)) by assumption.
      rewrite (rnd_pow2 k C), E.
      setoid_replace (2 ^ k - 2 ^ k) with 0 by ring. simpl.
      apply Qlt_le_weak, pow2_pos.
    + eapply Qle_trans; [apply rnd_error_fexp|]. apply HE.
      rewrite fexp_pos by exact Hx.
      rewrite (Qlog2_comp x (2 ^ k) Hx E).
      rewrite (Qlog2_unique (2 ^ k) k); [lia | lra | apply pow2_lt; lia].
Qed.

(** The integer significand of a rounded number has at most [prec] bits. *)
Lemma rne_significand_le (x : Q) :
  0 <= x -> (rne (x / 2 ^ fexp x) <= 2 ^ prec)%Z.
Proof.
  intros H0. pose proof (pow2_pos (fexp x)) as Hp.
  rewrite <- (rne_Z (2 ^ prec)). apply rne_le.
  rewrite <- pow2_Z by lia.
  apply Qle_shift_div_r; [exact Hp|]. rewrite <- pow2_add.
  destruct (Qeq_dec x 0) as [Hz|NZ].
  { pose proof (pow2_pos (prec + fexp x)). lra. }
  assert (Hx : 0 < x) by lra.
  destruct (Qlog2_spec x Hx) as [_ L2].
  apply Qlt_le_weak. eapply Qlt_le_trans; [exact L2|].
  apply pow2_le. rewrite fexp_pos by exact Hx. lia.
Qed.

(** Rounding is monotone. *)
Lemma rnd_le (x y : Q) : 0 <= x -> x <= y -> rnd x <= rnd y.
Proof.
  intros H0 Hxy.
  destruct (Qeq_dec x 0) as [Hz|NZ].
  { rewrite (rnd_zero x Hz). apply rnd_nonneg. lra. }
  assert (Hx : 0 < x) by lra. assert (Hy : 0 < y) by lra.
  pose proof (Qlog2_le x y Hx Hxy) as HL.
  destruct (Qlog2_spec x Hx) as [X1 X2].
  destruct (Qlog2_spec y Hy) as [Y1 Y2].
  pose proof (fexp_pos x Hx) as Fx. pose proof (fexp_pos y Hy) as Fy.
  pose proof (pow2_pos (fexp x)) as Px. pose proof (pow2_pos (fexp y)) as Py.
  rewrite (rnd_eq x), (rnd_eq y).
  destruct (Z.eq_dec (fexp x) (fexp y)) as [E|NE].
  - rewrite <- E.
    assert (H : (rne (x / 2 ^ fexp x) <= rne (y / 2 ^ fexp x))%Z).
    { apply rne_le. apply Qmult_le_compat_r; [exact Hxy|].
      apply Qlt_le_weak, Qinv_lt_0_compat, Px. }
    rewrite Zle_Qle in H. nra.
  - assert (Fy' : fexp y = (Qlog2 y - (prec - 1))%Z) by lia.
    assert (HLt : (Qlog2 x < Qlog2 y)%Z) by lia.
    (* the rounding of [y] stays above [2^(Qlog2 y)] *)
    assert (B : 2 ^ Qlog2 y <= inject_Z (rne (y / 2 ^ fexp y)) * 2 ^ fexp y).
    { assert (H : (rne (inject_Z (2 ^ (prec - 1))) <= rne (y / 2 ^ fexp y))%Z).
      { apply rne_le. rewrite <- pow2_Z by lia.
        apply Qle_shift_div_l; [exact Py|]. rewrite <- pow2_add.
        replace (prec - 1 + fexp y)%Z with (Qlog2 y) by lia. exact Y1. }
      rewrite rne_Z, Zle_Qle in H. rewrite <- pow2_Z in H by lia.
      assert (E : 2 ^ Qlog2 y == 2 ^ (prec - 1) * 2 ^ fexp y).
      { rewrite <- pow2_add. replace (prec - 1 + fexp y)%Z with (Qlog2 y) by lia.
        reflexivity. }
      rewrite E. nra. }
    (* the rounding of [x] stays below it *)
    set (c := Z.max (Qlog2 x + 1 - fexp x) 0).
    assert (A : inject_Z (rne (x / 2 ^ fexp x)) * 2 ^ fexp x <= 2 ^ Qlog2 y).
    { assert (H : (rne (x / 2 ^ fexp x) <= rne (inject_Z (2 ^ c)))%Z).
      { apply rne_le. rewrite <- pow2_Z by lia.
        apply Qle_shift_div_r; [exact Px|]. rewrite <- pow2_add.
        apply Qlt_le_weak. eapply Qlt_le_trans; [exact X2|].
        apply pow2_le. lia. }
      rewrite rne_Z, Zle_Qle in H. rewrite <- pow2_Z in H by lia.
      assert (E : 2 ^ c * 2 ^ fexp x <= 2 ^ Qlog2 y).
      { rewrite <- pow2_add. apply pow2_le. lia. }
      nra. }
    lra.
Qed.

Lemma rnd_le_pow2 (x : Q) (k : Z) :
  (emin <= k - (prec - 1))%Z -> 0 <= x -> x <= 2 ^ k -> rnd x <= 2 ^ k.
Proof.
  intros Hk H0 Hx. rewrite <- (rnd_pow2 k Hk). apply rnd_le; assumption.
Qed.

(** Scaling a number of the format by a power of two is exact, unless it
    underflows. *)
Lemma rnd_scale (x : Q) (k : Z) :
  0 < x -> rnd x == x ->
  (0 <= k \/ emin <= Qlog2 x - (prec - 1) + k)%Z ->
  rnd (x * 2 ^ k) == x * 2 ^ k.
Proof.
  intros Hx R Hk.
  pose proof (pow2_pos k) as Pk.
  assert (Hxk : 0 < x * 2 ^ k) by nra.
  pose proof (fexp_pos x Hx) as Fx. pose proof (fexp_pos _ Hxk) as Fxk.
  rewrite (Qlog2_scale x k Hx) in Fxk.
  set (d := (fexp x + k - fexp (x * 2 ^ k))%Z).
  assert (Hd : (0 <= d)%Z) by (unfold d; lia).
  apply (rnd_exact _ (rne (x / 2 ^ fexp x) * 2 ^ d)).
  rewrite inject_Z_mult, <- pow2_Z by exact Hd.
  rewrite <- Qmult_assoc, <- pow2_add.
  replace (d + fexp (x * 2 ^ k))%Z with (fexp x + k)%Z by (unfold d; lia).
  rewrite pow2_add, Qmult_assoc, <- rnd_eq, R. reflexivity.
Qed.


(** A rounded number is a number of the format. *)
Lemma rnd_idem (x : Q) : 0 <= x -> rnd (rnd x) == rnd x.
Proof.
  intros H0.
  pose proof (rnd_nonneg x H0) as Hr.
  destruct (Qeq_dec (rnd x) 0) as [Hz|NZ].
  { rewrite (rnd_zero _ Hz). symmetry; exact Hz. }
  assert (Hr' : 0 < rnd x) by lra.
  pose proof (rne_significand_le x H0) as Hn.
  pose proof (rnd_eq x) as E.
  pose proof (pow2_pos (fexp x)) as Pe.
  assert (He : (emin <= fexp x)%Z) by (unfold IEEE754.fexp; lia).
  set (e := fexp x) in *. set (n := rne (x / 2 ^ e)) in *.
  destruct (Z.eq_dec n (2 ^ prec)) as [Top|NTop].
  - assert (E' : rnd x == 2 ^ (prec + e)).
    { rewrite E, Top, <- pow2_Z, <- pow2_add by lia. reflexivity. }
    rewrite (rnd_comp _ _ Hr E'), E'. apply rnd_pow2. lia.
  - assert (Hlt : rnd x < 2 ^ (prec + e)).
    { rewrite E, pow2_add, (pow2_Z prec) by lia.
      assert (inject_Z n < inject_Z (2 ^ prec)) by (rewrite <- Zlt_Qlt; lia).
      nra. }
    pose proof (Qlog2_lt_pow2 _ _ Hr' Hlt) as HL.
    pose proof (fexp_pos _ Hr') as F.
    set (d := (e - fexp (rnd x))%Z).
    assert (Hd : (0 <= d)%Z) by (unfold d; lia).
    apply (rnd_exact _ (n * 2 ^ d)).
    rewrite inject_Z_mult, <- pow2_Z by exact Hd.
    rewrite <- Qmult_assoc, <- pow2_add.
    replace (d + fexp (rnd x))%Z with e by (unfold d; lia).
    exact E.
Qed.


(** A rounded number at or above [2^k] is a multiple of the unit in the
    last place of [2^k]. *)
Lemma rnd_grid (x : Q) (k : Z) :
  2 ^ k <= x -> exists m : Z, rnd x == inject_Z m * 2 ^ (k - (prec - 1)).
Proof.
  intros H.
  assert (Hx : 0 < x) by (pose proof (pow2_pos k); lra).
  pose proof (Qlog2_ge_pow2 x k H) as L.
  pose proof (fexp_pos x Hx) as F.
  set (d := (fexp x - (k - (prec - 1)))%Z).
  assert (Hd : (0 <= d)%Z) by (unfold d; lia).
  exists (rne (x / 2 ^ fexp x) * 2 ^ d)%Z.
  rewrite inject_Z_mult, <- pow2_Z by exact Hd.
  rewrite <- Qmult_assoc, <- pow2_add.
  replace (d + (k - (prec - 1)))%Z with (fexp x) by (unfold d; lia).
  apply rnd_eq.
Qed.


End Rounding.


(** ** binary32 and binary64 *)

(** The rounding agrees with the standard library's specification of
    IEEE 754 ([SpecFloat]) where the two are run side by side: on ties (to
    even), on subnormal numbers, on a quotient and on a double-precision
    sum. *)
Example rounding_agrees_with_SpecFloat :
  round32 16777217 == SF2Q (binary_normalize 24 128 16777217 0 false) /\
  round32 16777219 == SF2Q (binary_normalize 24 128 16777219 0 false) /\
  round32 (2 ^ (-150)) == SF2Q (binary_normalize 24 128 1 (-150) false) /\
  round32 (3 * 2 ^ (-150)) == SF2Q (binary_normalize 24 128 3 (-150) false) /\
  round32 (2 ^ (-149)) == SF2Q (binary_normalize 24 128 1 (-149) false) /\
  fdiv 1 3 == SF2Q (SFdiv 24 128 (S754_finite false 8388608 (-23))
                                 (S754_finite false 12582912 (-22))) /\
  round64 9007199254740993 ==
    SF2Q (binary_normalize 53 1024 9007199254740993 0 false) /\
  dadd (4503599627370497 * 2 ^ (-30)) (1 # 2) ==
    SF2Q (SFadd 53 1024 (S754_finite false 4503599627370497 (-30))
                        (S754_finite false 4503599627370496 (-53))).
Proof. repeat split; vm_compute; reflexivity. Qed.

Lemma prec32 : (1 <= 24)%Z.
Proof. lia. Qed.

Lemma prec64 : (1 <= 53)%Z.
Proof. lia. Qed.

Lemma round32_le (x y : Q) : 0 <= x -> x <= y -> round32 x <= round32 y.
Proof. apply (rnd_le 24 (-149) prec32). Qed.

Lemma round32_nonneg (x : Q) : 0 <= x -> 0 <= round32 x.
Proof. apply (rnd_nonneg 24 (-149)). Qed.

Lemma round32_zero (x : Q) : x == 0 -> round32 x == 0.
Proof. apply (rnd_zero 24 (-149)). Qed.

Lemma round32_error (x : Q) (k : Z) :
  0 <= x -> x <= 2 ^ k ->
  Qabs (round32 x - x) <= 2 ^ (Z.max (k - 24) (-149) - 1).
Proof. apply (rnd_error_le 24 (-149) prec32). Qed.

Lemma round32_grid (x : Q) (k : Z) :
  2 ^ k <= x -> exists m : Z, round32 x == inject_Z m * 2 ^ (k - (24 - 1)).
Proof. apply (rnd_grid 24 (-149)). Qed.

Lemma binary32_eq (x : Q) : binary32 x = true -> round32 x == x.
Proof. intros B. apply Qeq_bool_iff. exact B. Qed.

Lemma binary32_round (x : Q) : 0 <= x -> binary32 (round32 x) = true.
Proof.
  intros H. apply Qeq_bool_iff. apply (rnd_idem 24 (-149) prec32 x H).
Qed.

Lemma Qfloor_eq (x : Q) (k : Z) :
  inject_Z k <= x -> x < inject_Z k + 1 -> Qfloor x = k.
Proof.
  intros H1 H2.
  pose proof (Qfloor_le x) as F1. pose proof (Qlt_floor x) as F2.
  rewrite inject_Z_plus in F2. change (inject_Z 1) with 1 in F2.
  assert (A : inject_Z k < inject_Z (Qfloor x) + 1) by lra.
  assert (B : inject_Z (Qfloor x) < inject_Z k + 1) by lra.
  change 1 with (inject_Z 1) in A, B.
  rewrite <- inject_Z_plus, <- Zlt_Qlt in A, B. lia.
Qed.

(** Adding [0.5] in double precision to a [float] between [0] and [2^24]
    and truncating gives the [float] rounded half up: the sum is exact, or
    else lies strictly between [1/2] and [1]. *)
Lemma half_up (y : Q) :
  0 <= y -> y <= 2 ^ 24 ->
  Qtrunc (dadd (double_of_float (round32 y)) (1 # 2)) = Qfloor (round32 y + (1 # 2)).
Proof.
  intros H0 H1. unfold dadd, double_of_float, round64, round32.
  pose proof (rnd_nonneg 24 (-149) y H0) as Q0.
  assert (Q1 : rnd 24 (-149) y <= 2 ^ 24).
  { apply (rnd_le_pow2 24 (-149) prec32); [lia | assumption | assumption]. }
  pose proof (rnd_eq 24 (-149) y) as E.
  pose proof (rne_significand_le 24 (-149) prec32 y H0) as N1.
  assert (N0 : (0 <= rne (y / 2 ^ fexp 24 (-149) y))%Z).
  { rewrite <- (rne_Z 0). apply rne_le. change (inject_Z 0) with 0.
    apply Qle_shift_div_l; [apply pow2_pos | lra]. }
  assert (He : (-149 <= fexp 24 (-149) y)%Z) by (unfold fexp; lia).
  set (e := fexp 24 (-149) y) in *. set (n := rne (y / 2 ^ e)) in *.
  set (q := rnd 24 (-149) y) in *. set (z := q + (1 # 2)).
  assert (Z0 : (1 # 2) <= z) by (unfold z; lra).
  assert (Z1 : z < 2 ^ 25).
  { unfold z. change (2 ^ 25) with (2 ^ 24 + 2 ^ 24). change (2 ^ 24) with 16777216 in *.
    lra. }
  assert (Zp : 0 < z) by lra.
  assert (R0 : 0 <= rnd 53 (-1074) z) by (apply rnd_nonneg; lra).
  assert (T : Qtrunc (rnd 53 (-1074) z) = Qfloor (rnd 53 (-1074) z)).
  { unfold Qtrunc. apply Qle_bool_iff in R0. rewrite R0. reflexivity. }
  rewrite T.
  pose proof (Qlog2_ge_pow2 z (-1) Z0) as L0.
  pose proof (Qlog2_lt_pow2 z 25 Zp Z1) as L1.
  pose proof (fexp_pos 53 (-1074) z Zp) as F.
  set (E' := fexp 53 (-1074) z) in *.
  destruct (Z_le_gt_dec E' e) as [C|C].
  - apply Qfloor_comp.
    apply (rnd_exact 53 (-1074) z (n * 2 ^ (e - E') + 2 ^ (-1 - E'))).
    fold E'. rewrite inject_Z_plus, inject_Z_mult, <- !pow2_Z by lia.
    rewrite Qmult_plus_distr_l, <- Qmult_assoc, <- !pow2_add.
    replace (e - E' + E')%Z with e by lia.
    replace (-1 - E' + E')%Z with (-1)%Z by lia.
    unfold z. rewrite E. reflexivity.
  - assert (Qs : q <= 1 # 32).
    { rewrite E.
      assert (A : inject_Z n <= 2 ^ 24).
      { rewrite (pow2_Z 24) by lia. rewrite <- Zle_Qle. exact N1. }
      assert (B : 2 ^ e <= 2 ^ (-29)) by (apply pow2_le; lia).
      pose proof (pow2_pos e) as Pe.
      assert (A0 : 0 <= inject_Z n).
      { change 0 with (inject_Z 0). rewrite <- Zle_Qle. exact N0. }
      change (2 ^ 24) with 16777216 in A.
      change (2 ^ (-29)) with (1 # 536870912) in B.
      nra. }
    assert (U : rnd 53 (-1074) z <= 17 # 32).
    { assert (V : rnd 53 (-1074) (17 # 32) == 17 # 32) by (vm_compute; reflexivity).
      rewrite <- V. apply (rnd_le 53 (-1074) prec64); unfold z; lra. }
    assert (D : 1 # 2 <= rnd 53 (-1074) z).
    { assert (V : rnd 53 (-1074) (1 # 2) == 1 # 2) by (vm_compute; reflexivity).
      rewrite <- V. apply (rnd_le 53 (-1074) prec64); lra. }
    rewrite (Qfloor_eq _ 0), (Qfloor_eq z 0); [reflexivity | | | | ];
      change (inject_Z 0) with 0; unfold z in *; lra.
Qed.


End IEEE754Facts.

(* ================================================================== *)
(** * The unit conversions *)
(* ================================================================== *)

Module ConversionFacts.

Import IEEE754 IEEE754Facts GF1Device.
Local Open Scope Q_scope.

(** Linear arithmetic with divisions by the constants of the driver. *)
Ltac lraq :=
  unfold Qdiv in *;
  change (/ 5) with (1 # 5) in *;
  change (/ 255) with (1 # 255) in *;
  change (/ 50000) with (1 # 50000) in *;
  change (/ 16777216) with (1 # 16777216) in *;
  lra.

Lemma AQUANTUM_float : float_of_uint AQUANTUM = 255.
Proof. vm_compute. reflexivity. Qed.

Lemma FQUANTUM_float : float_of_uint FQUANTUM = 16777216.
Proof. vm_compute. reflexivity. Qed.

Lemma Qfloor_bounds (x : Q) (a b : Z) :
  inject_Z a <= x -> x < inject_Z b -> (a <= Qfloor x < b)%Z.
Proof.
  intros H1 H2.
  pose proof (Qfloor_le x) as F1. pose proof (Qlt_floor x) as F2.
  rewrite inject_Z_plus in F2. change (inject_Z 1) with 1 in F2.
  assert (A : inject_Z a < inject_Z (Qfloor x) + 1) by lra.
  assert (B : inject_Z (Qfloor x) < inject_Z b) by lra.
  change 1 with (inject_Z 1) in A.
  rewrite <- inject_Z_plus, <- Zlt_Qlt in A. rewrite <- Zlt_Qlt in B. lia.
Qed.

Lemma round_away_nonneg (x : Q) :
  0 <= x -> round_away x = inject_Z (Qfloor (x + (1 # 2))).
Proof.
  intros H. unfold round_away. apply Qle_bool_iff in H. rewrite H. reflexivity.
Qed.

Lemma half_error (x : Q) : Qabs (inject_Z (Qfloor (x + (1 # 2))) - x) <= 1 # 2.
Proof.
  pose proof (Qfloor_le (x + (1 # 2))) as F1.
  pose proof (Qlt_floor (x + (1 # 2))) as F2.
  rewrite inject_Z_plus in F2. change (inject_Z 1) with 1 in F2.
  apply Qabs_Qle_condition. split; lra.
Qed.

(** ** Amplitude *)

Lemma amplitudeQuotient_eq (v : Q) :
  amplitudeQuotient v = round32 (round32 (v * 255) / 5).
Proof.
  unfold amplitudeQuotient, fdiv, fmul. rewrite AQUANTUM_float. reflexivity.
Qed.

Lemma amplitudeQuotient_le (v w : Q) :
  0 <= v -> v <= w -> amplitudeQuotient v <= amplitudeQuotient w.
Proof.
  intros H0 H. rewrite !amplitudeQuotient_eq.
  assert (A : round32 (v * 255) <= round32 (w * 255)) by (apply round32_le; lraq).
  assert (B : 0 <= round32 (v * 255)) by (apply round32_nonneg; lraq).
  apply round32_le; lraq.
Qed.

Lemma amplitudeQuotient_range (v : Q) :
  0 <= v -> v <= 5 -> 0 <= amplitudeQuotient v /\ amplitudeQuotient v <= 255.
Proof.
  intros H0 H1. split.
  - rewrite amplitudeQuotient_eq. apply round32_nonneg.
    assert (B : 0 <= round32 (v * 255)) by (apply round32_nonneg; lraq). lraq.
  - assert (E : amplitudeQuotient 5 = 255) by (vm_compute; reflexivity).
    rewrite <- E. apply amplitudeQuotient_le; assumption.
Qed.

Lemma amplitudeCode_half_up (v : Q) :
  0 <= v -> v <= 5 ->
  amplitudeCode v = Qfloor (amplitudeQuotient v + (1 # 2)) /\
  (0 <= amplitudeCode v <= 255)%Z.
Proof.
  intros H0 H1.
  destruct (amplitudeQuotient_range v H0 H1) as [R0 R1].
  assert (B : (0 <= Qfloor (amplitudeQuotient v + (1 # 2)) < 256)%Z).
  { apply Qfloor_bounds.
    - change (inject_Z 0) with 0. lraq.
    - change (inject_Z 256) with 256. lraq. }
  assert (E : amplitudeCode v = Qfloor (amplitudeQuotient v + (1 # 2))).
  { unfold amplitudeCode, uint_of_float. rewrite amplitudeQuotient_eq in *.
    rewrite half_up.
    - apply Z.mod_small. exact B.
    - assert (0 <= round32 (v * 255)) by (apply round32_nonneg; lraq). lraq.
    - assert (round32 (v * 255) <= round32 1275) by (apply round32_le; lraq).
      assert (E : round32 1275 = 1275) by (vm_compute; reflexivity).
      rewrite E in *. change (2 ^ 24) with 16777216. lraq. }
  rewrite E. split; [reflexivity | lia].
Qed.

Lemma amplitudeCode_le (v w : Q) :
  0 <= v -> v <= w -> w <= 5 -> (amplitudeCode v <= amplitudeCode w)%Z.
Proof.
  intros H0 H H1.
  destruct (amplitudeCode_half_up v) as [Ev _]; [lraq | lraq |].
  destruct (amplitudeCode_half_up w) as [Ew _]; [lraq | lraq |].
  rewrite Ev, Ew. apply Qfloor_resp_le.
  pose proof (amplitudeQuotient_le v w H0 H). lraq.
Qed.

(** The single-precision quotient is within [1/50000] of [v * 255 / 5]. *)
Lemma amplitudeQuotient_error (v : Q) :
  0 <= v -> v <= 5 -> Qabs (amplitudeQuotient v - 51 * v) <= 1 # 50000.
Proof.
  intros H0 H1. rewrite amplitudeQuotient_eq.
  pose proof (round32_error (v * 255) 11) as E1.
  change (2 ^ 11) with 2048 in E1.
  change (2 ^ (Z.max (11 - 24) (-149) - 1)) with (1 # 16384) in E1.
  specialize (E1 ltac:(lraq) ltac:(lraq)).
  apply Qabs_Qle_condition in E1.
  assert (T0 : 0 <= round32 (v * 255)) by (apply round32_nonneg; lraq).
  assert (T : round32 (v * 255) <= 1275).
  { assert (E : round32 1275 = 1275) by (vm_compute; reflexivity).
    rewrite <- E. apply round32_le; lraq. }
  set (t := round32 (v * 255)) in *.
  pose proof (round32_error (t / 5) 8) as E3.
  change (2 ^ 8) with 256 in E3.
  change (2 ^ (Z.max (8 - 24) (-149) - 1)) with (1 # 131072) in E3.
  specialize (E3 ltac:(lraq) ltac:(lraq)).
  apply Qabs_Qle_condition in E3.
  apply Qabs_Qle_condition. split; lraq.
Qed.

(** The value the device is set to is within half a quantum of the request,
    up to the rounding of the four single-precision operations. *)
Lemma expectedAmplitude_error (v : Q) :
  0 <= v -> v <= 5 ->
  Qabs (expectedAmplitude v - v) <= (5 # 510) + (1 # 1048576).
Proof.
  intros H0 H1. unfold expectedAmplitude, fdiv, fmul.
  rewrite AQUANTUM_float. unfold AMPLITUDE_MAX.
  destruct (amplitudeQuotient_range v H0 H1) as [R0 R1].
  pose proof (amplitudeQuotient_error v H0 H1) as EQ.
  apply Qabs_Qle_condition in EQ.
  rewrite (round_away_nonneg _ R0).
  pose proof (half_error (amplitudeQuotient v)) as EN.
  apply Qabs_Qle_condition in EN.
  assert (N : (0 <= Qfloor (amplitudeQuotient v + (1 # 2)) < 256)%Z).
  { apply Qfloor_bounds.
    - change (inject_Z 0) with 0. lraq.
    - change (inject_Z 256) with 256. lraq. }
  destruct N as [N0 N1]. rewrite Zle_Qle in N0. rewrite Zlt_Qlt in N1.
  change (inject_Z 0) with 0 in N0. change (inject_Z 256) with 256 in N1.
  set (n := inject_Z (Qfloor (amplitudeQuotient v + (1 # 2)))) in *.
  pose proof (round32_error (n * 5) 11) as E1.
  change (2 ^ 11) with 2048 in E1.
  change (2 ^ (Z.max (11 - 24) (-149) - 1)) with (1 # 16384) in E1.
  specialize (E1 ltac:(lraq) ltac:(lraq)).
  apply Qabs_Qle_condition in E1.
  set (p := round32 (n * 5)) in *.
  assert (P0 : 0 <= p) by (apply round32_nonneg; lraq).
  pose proof (round32_error (p / 255) 3) as E2.
  change (2 ^ 3) with 8 in E2.
  change (2 ^ (Z.max (3 - 24) (-149) - 1)) with (1 # 4194304) in E2.
  specialize (E2 ltac:(lraq) ltac:(lraq)).
  apply Qabs_Qle_condition in E2.
  apply Qabs_Qle_condition. split; lraq.
Qed.

(** ** Frequency *)

Lemma frequencyQuotient_eq (f : Q) :
  frequencyQuotient f = round32 (round32 (f * 16777216) / 50000).
Proof.
  unfold frequencyQuotient, fdiv, fmul. rewrite FQUANTUM_float. reflexivity.
Qed.

Lemma frequencyQuotient_le (f g : Q) :
  0 <= f -> f <= g -> frequencyQuotient f <= frequencyQuotient g.
Proof.
  intros H0 H. rewrite !frequencyQuotient_eq.
  assert (A : round32 (f * 16777216) <= round32 (g * 16777216))
    by (apply round32_le; lraq).
  assert (B : 0 <= round32 (f * 16777216)) by (apply round32_nonneg; lraq).
  apply round32_le; lraq.
Qed.

Lemma frequencyQuotient_range (f : Q) :
  0 <= f -> f <= 25000 ->
  0 <= frequencyQuotient f /\ frequencyQuotient f <= 8388608.
Proof.
  intros H0 H1. split.
  - rewrite frequencyQuotient_eq. apply round32_nonneg.
    assert (B : 0 <= round32 (f * 16777216)) by (apply round32_nonneg; lraq). lraq.
  - assert (E : frequencyQuotient 25000 = 8388608) by (vm_compute; reflexivity).
    rewrite <- E. apply frequencyQuotient_le; assumption.
Qed.

Lemma frequencyCode_half_up (f : Q) :
  0 <= f -> f <= 25000 ->
  frequencyCode f = Qfloor (frequencyQuotient f + (1 # 2)) /\
  (0 <= frequencyCode f <= 8388608)%Z.
Proof.
  intros H0 H1.
  destruct (frequencyQuotient_range f H0 H1) as [R0 R1].
  assert (B : (0 <= Qfloor (frequencyQuotient f + (1 # 2)) < 8388609)%Z).
  { apply Qfloor_bounds.
    - change (inject_Z 0) with 0. lraq.
    - change (inject_Z 8388609) with 8388609. lraq. }
  assert (E : frequencyCode f = Qfloor (frequencyQuotient f + (1 # 2))).
  { unfold frequencyCode, uint_of_float. rewrite frequencyQuotient_eq in *.
    rewrite half_up.
    - apply Z.mod_small. lia.
    - assert (0 <= round32 (f * 16777216)) by (apply round32_nonneg; lraq). lraq.
    - assert (round32 (f * 16777216) <= round32 419430400000)
        by (apply round32_le; lraq).
      assert (E : round32 419430400000 = 419430400000) by (vm_compute; reflexivity).
      rewrite E in *. change (2 ^ 24) with 16777216. lraq. }
  rewrite E. split; [reflexivity | lia].
Qed.

Lemma frequencyCode_le (f g : Q) :
  0 <= f -> f <= g -> g <= 25000 -> (frequencyCode f <= frequencyCode g)%Z.
Proof.
  intros H0 H H1.
  destruct (frequencyCode_half_up f) as [Ef _]; [lraq | lraq |].
  destruct (frequencyCode_half_up g) as [Eg _]; [lraq | lraq |].
  rewrite Ef, Eg. apply Qfloor_resp_le.
  pose proof (frequencyQuotient_le f g H0 H). lraq.
Qed.

(** Multiplying a [float] by [FQUANTUM = 2^24] is exact. *)
Lemma FQUANTUM_exact (f : Q) :
  binary32 f = true -> 0 <= f -> round32 (f * 16777216) == f * 16777216.
Proof.
  intros B H0. apply Qeq_bool_iff in B.
  destruct (Qeq_dec f 0) as [Hz|NZ].
  { rewrite round32_zero; rewrite Hz; reflexivity. }
  change 16777216 with (2 ^ 24).
  apply (rnd_scale 24 (-149)); [lra | exact B | lia].
Qed.

(** For a [float] frequency the single-precision quotient is within a
    quarter of [f * 2^24 / 50000]. *)
Lemma frequencyQuotient_error (f : Q) :
  binary32 f = true -> 0 <= f -> f <= 25000 ->
  Qabs (frequencyQuotient f - f * 16777216 / 50000) <= 1 # 4.
Proof.
  intros B H0 H1. rewrite frequencyQuotient_eq.
  pose proof (FQUANTUM_exact f B H0) as T.
  assert (T0 : 0 <= round32 (f * 16777216)) by (rewrite T; lraq).
  set (t := round32 (f * 16777216)) in *.
  pose proof (round32_error (t / 50000) 23) as E.
  change (2 ^ 23) with 8388608 in E.
  change (2 ^ (Z.max (23 - 24) (-149) - 1)) with (1 # 4) in E.
  specialize (E ltac:(lraq) ltac:(lraq)).
  apply Qabs_Qle_condition in E.
  apply Qabs_Qle_condition. split; lraq.
Qed.

(** Dividing a [float] that is at least [50000] by [FQUANTUM] is exact. *)
Lemma FQUANTUM_div_exact (p : Q) :
  binary32 p = true -> 50000 <= p -> round32 (p / 16777216) == p / 16777216.
Proof.
  intros B H. apply Qeq_bool_iff in B.
  assert (L : (15 <= Qlog2 p)%Z).
  { apply Qlog2_ge_pow2. change (2 ^ 15) with 32768. lra. }
  change (p / 16777216) with (p * 2 ^ (-24)).
  apply (rnd_scale 24 (-149)); [lra | exact B | lia].
Qed.

(** The expected frequency is the frequency of the code that the driver
    writes: [round32 (code * MCLK) / FQUANTUM], the division being exact. *)
Lemma expectedFrequency_code (f : Q) :
  0 <= f -> f <= 25000 ->
  expectedFrequency f == round32 (inject_Z (frequencyCode f) * 50000) / 16777216.
Proof.
  intros H0 H1. unfold expectedFrequency, fdiv, fmul.
  rewrite FQUANTUM_float. unfold MCLK.
  destruct (frequencyQuotient_range f H0 H1) as [R0 R1].
  destruct (frequencyCode_half_up f H0 H1) as [E [C0 C1]].
  rewrite (round_away_nonneg _ R0), <- E.
  destruct (Z.eq_dec (frequencyCode f) 0) as [Cz|Cnz].
  - rewrite Cz. vm_compute. reflexivity.
  - assert (N : 1 <= inject_Z (frequencyCode f)).
    { change 1 with (inject_Z 1). rewrite <- Zle_Qle. lia. }
    apply FQUANTUM_div_exact.
    + apply binary32_round. lra.
    + assert (X : round32 50000 = 50000) by (vm_compute; reflexivity).
      rewrite <- X at 1. apply round32_le; lra.
Qed.

(** For a [float] frequency the code is within 3/4 of [f * 2^24 / 50000]. *)
Lemma frequencyCode_near (f : Q) :
  binary32 f = true -> 0 <= f -> f <= 25000 ->
  Qabs (inject_Z (frequencyCode f) - f * 16777216 / 50000) <= 3 # 4.
Proof.
  intros B H0 H1.
  destruct (frequencyCode_half_up f H0 H1) as [E _]. rewrite E.
  pose proof (frequencyQuotient_error f B H0 H1) as EQ.
  apply Qabs_Qle_condition in EQ.
  pose proof (half_error (frequencyQuotient f)) as EN.
  apply Qabs_Qle_condition in EN.
  apply Qabs_Qle_condition. split; lraq.
Qed.

(** The frequency the device is set to is within one quantum of the
    request.  Below 16384 kHz the four roundings add up to less than a
    quantum; from 16384 kHz on, the request and the result are both
    multiples of [2^-10] and less than four of them apart. *)
Lemma expectedFrequency_error (f : Q) :
  binary32 f = true -> 0 <= f -> f <= 25000 ->
  Qabs (expectedFrequency f - f) <= 50000 # 16777216.
Proof.
  intros B H0 H1.
  rewrite (expectedFrequency_code f H0 H1).
  pose proof (frequencyCode_near f B H0 H1) as EN.
  apply Qabs_Qle_condition in EN.
  destruct (frequencyCode_half_up f H0 H1) as [_ [C0 C1]].
  assert (C16 : frequencyCode 16384 = 5497558%Z) by (vm_compute; reflexivity).
  destruct (Qlt_le_dec f 16384) as [Lo|Hi].
  - pose proof (frequencyCode_le f 16384 H0 ltac:(lra) ltac:(lra)) as M.
    rewrite C16 in M. rewrite Zle_Qle in C0, M.
    change (inject_Z 0) with 0 in C0. change (inject_Z 5497558) with 5497558 in M.
    set (n := inject_Z (frequencyCode f)) in *.
    pose proof (round32_error (n * 50000) 38) as E1.
    change (2 ^ 38) with 274877906944 in E1.
    change (2 ^ (Z.max (38 - 24) (-149) - 1)) with 8192 in E1.
    specialize (E1 ltac:(lraq) ltac:(lraq)).
    apply Qabs_Qle_condition in E1.
    apply Qabs_Qle_condition. split; lraq.
  - pose proof (frequencyCode_le 16384 f ltac:(lra) Hi H1) as M.
    rewrite C16 in M. rewrite Zle_Qle in M, C1.
    change (inject_Z 5497558) with 5497558 in M.
    change (inject_Z 8388608) with 8388608 in C1.
    set (n := inject_Z (frequencyCode f)) in *.
    pose proof (round32_error (n * 50000) 39) as E1.
    change (2 ^ 39) with 549755813888 in E1.
    change (2 ^ (Z.max (39 - 24) (-149) - 1)) with 16384 in E1.
    specialize (E1 ltac:(lraq) ltac:(lraq)).
    apply Qabs_Qle_condition in E1.
    destruct (round32_grid (n * 50000) 37) as [mp Gp].
    { change (2 ^ 37) with 137438953472. lra. }
    destruct (round32_grid f 14) as [mf Gf].
    { change (2 ^ 14) with 16384. exact Hi. }
    rewrite (binary32_eq f B) in Gf.
    change (2 ^ (37 - (24 - 1))) with 16384 in Gp.
    change (2 ^ (14 - (24 - 1))) with (1 # 512) in Gf.
    set (p := round32 (n * 50000)) in *.
    assert (D : p / 16777216 - f == inject_Z (mp - 2 * mf) * (1 # 1024)).
    { rewrite Gp, Gf at 1. unfold Z.sub.
      rewrite inject_Z_plus, inject_Z_opp, inject_Z_mult.
      change (inject_Z 2) with 2. field. }
    assert (Dlo : inject_Z (-4) < inject_Z (mp - 2 * mf)).
    { change (inject_Z (-4)) with (-4). lraq. }
    assert (Dhi : inject_Z (mp - 2 * mf) < inject_Z 4).
    { change (inject_Z 4) with 4. lraq. }
    rewrite <- Zlt_Qlt in Dlo, Dhi.
    assert (Dlo' : inject_Z (-3) <= inject_Z (mp - 2 * mf))
      by (rewrite <- Zle_Qle; lia).
    assert (Dhi' : inject_Z (mp - 2 * mf) <= inject_Z 3)
      by (rewrite <- Zle_Qle; lia).
    change (inject_Z (-3)) with (-3) in Dlo'. change (inject_Z 3) with 3 in Dhi'.
    rewrite D. apply Qabs_Qle_condition. split; lra.
Qed.

End ConversionFacts.

(* ================================================================== *)
(** * The events of each operation *)
(* ================================================================== *)

Module DriverFacts.

Import IEEE754 CP2130 GF1Device.

Lemma skipn_length_app {A : Type} (l l' : list A) :
  skipn (List.length l) (l ++ l') = l'.
Proof. induction l as [|a l IH]; [reflexivity | exact IH]. Qed.

Lemma Qltb_true (a b : Q) : Qltb a b = true <-> (a < b)%Q.
Proof.
  unfold Qltb. rewrite negb_true_iff. split.
  - intros H. destruct (Qlt_le_dec a b) as [L|L]; [exact L|].
    apply Qle_bool_iff in L. congruence.
  - intros H. destruct (Qle_bool b a) eqn:E; [|reflexivity].
    apply Qle_bool_iff in E. exfalso. apply (Qlt_irrefl a).
    apply Qlt_le_trans with b; assumption.
Qed.

Lemma Qltb_false (a b : Q) : Qltb a b = false <-> (b <= a)%Q.
Proof.
  unfold Qltb. rewrite negb_false_iff. apply Qle_bool_iff.
Qed.

Lemma rejected_amplitude (v : Q) :
  rejected (op_setAmplitude v) = true <-> (v < 0 \/ 5 < v)%Q.
Proof.
  unfold rejected, float_lt, AMPLITUDE_MIN, AMPLITUDE_MAX.
  rewrite orb_true_iff, !Qltb_true. reflexivity.
Qed.

Lemma rejected_frequency (f : Q) :
  rejected (op_setFrequency f) = true <-> (f < 0 \/ 25000 < f)%Q.
Proof.
  unfold rejected, float_lt, FREQUENCY_MIN, FREQUENCY_MAX.
  rewrite orb_true_iff, !Qltb_true. reflexivity.
Qed.

Lemma accepted_amplitude (v : Q) :
  rejected (op_setAmplitude v) = false <-> (0 <= v /\ v <= 5)%Q.
Proof.
  unfold rejected, float_lt, AMPLITUDE_MIN, AMPLITUDE_MAX.
  rewrite orb_false_iff, !Qltb_false. reflexivity.
Qed.

Lemma accepted_frequency (f : Q) :
  rejected (op_setFrequency f) = false <-> (0 <= f /\ f <= 25000)%Q.
Proof.
  unfold rejected, float_lt, FREQUENCY_MIN, FREQUENCY_MAX.
  rewrite orb_false_iff, !Qltb_false. reflexivity.
Qed.

(** The error counter stays an [int]. *)
Lemma int_wrap_range (n : Z) : INT_MIN <= int_wrap n <= INT_MAX.
Proof.
  unfold int_wrap, INT_MIN, INT_MAX.
  pose proof (Z.mod_pos_bound (n + 2 ^ 31) (2 ^ 32) ltac:(lia)). lia.
Qed.

Lemma int_wrap_small (n : Z) : INT_MIN <= n <= INT_MAX -> int_wrap n = n.
Proof.
  unfold int_wrap, INT_MIN, INT_MAX. intros H.
  rewrite Z.mod_small by lia. lia.
Qed.

Lemma int_wrap_add (a b : Z) : int_wrap (int_wrap a + b) = int_wrap (a + b).
Proof.
  unfold int_wrap. f_equal.
  replace ((a + 2 ^ 31) mod 2 ^ 32 - 2 ^ 31 + b + 2 ^ 31)
    with ((a + 2 ^ 31) mod 2 ^ 32 + b) by lia.
  rewrite Zplus_mod_idemp_l. f_equal. lia.
Qed.

Lemma int_wrap_overflow : int_wrap (INT_MAX + 1) = INT_MIN.
Proof. reflexivity. Qed.

Section Trace.

Variable cp2130_ : list event -> event -> Z * string.

Lemma trace_call (e : event) (s : state) :
  trace (call cp2130_ e s) = trace s ++ [ e ].
Proof. reflexivity. Qed.

Lemma trace_pause (usec : Z) (s : state) :
  trace (pause usec s) = trace s ++ [ usleep usec ].
Proof. reflexivity. Qed.

Lemma trace_logic_error (msg : string) (s : state) :
  trace (logic_error msg s) = trace s ++ [].
Proof. symmetry. apply app_nil_r. Qed.

End Trace.

(** Unfolds an operation into its calls and collects their events. *)
Ltac run :=
  unfold exec, clear, reset, setSineWave, setTriangleWave,
    setupChannel0, setupChannel1, start, stop,
    clearCtrlInterrupt, toggleCtrl, toggleInterrupt, andthen;
  repeat (rewrite trace_call || rewrite trace_pause || rewrite trace_logic_error);
  rewrite <- ?app_assoc; cbn [app].

(** What each operation adds to the trace, whatever the bridge reports. *)
Lemma issued_eq (cp2130_ : list event -> event -> Z * string)
      (o : operation) (s : state) :
  issued cp2130_ o s =
  match o with
  | op_clear =>
      [ setGPIO2 false; setGPIO3 false; selectCS 0;
        spiWrite [ 0x0f; 0xdf; 0x10; 0x00; 0x20; 0x00; 0x30; 0x00;
                   0x40; 0x00; 0xc0; 0x00; 0xc0; 0x00 ] EPOUT;
        usleep 100; selectCS 1; spiWrite [ 0x00 ] EPOUT; usleep 100;
        disableCS 1 ]
  | op_reset => [ resetBridge ]
  | op_setAmplitude amplitude =>
      if rejected o then []
      else [ selectCS 1; spiWrite [ amplitudeCode amplitude ] EPOUT;
             usleep 100; disableCS 1 ]
  | op_setFrequency frequency =>
      if rejected o then []
      else [ setGPIO2 false; setGPIO3 false; setGPIO3 true; setGPIO3 false;
             selectCS 0;
             spiWrite (frequencyFrame (frequencyCode frequency)) EPOUT;
             usleep 100; disableCS 0; setGPIO2 true; setGPIO2 false ]
  | op_setSineWave =>
      [ setGPIO2 false; setGPIO3 false; selectCS 0;
        spiWrite [ 0x0f; 0xdf ] EPOUT; usleep 100; disableCS 0;
        setGPIO2 true; setGPIO2 false ]
  | op_setTriangleWave =>
      [ setGPIO2 false; setGPIO3 false; selectCS 0;
        spiWrite [ 0x0d; 0xdf ] EPOUT; usleep 100; disableCS 0;
        setGPIO2 true; setGPIO2 false ]
  | op_setupChannel0 =>
      [ configureSPIMode 0
          {| csmode := CSMODEPP; cfrq := CFRQ12M; cpol := CPOL1; cpha := CPHA0 |};
        disableSPIDelays 0 ]
  | op_setupChannel1 =>
      [ configureSPIMode 1
          {| csmode := CSMODEPP; cfrq := CFRQ12M; cpol := CPOL0; cpha := CPHA0 |};
        disableSPIDelays 1 ]
  | op_start => [ setGPIO2 false; setGPIO3 false; setGPIO2 true; setGPIO2 false ]
  | op_stop => [ setGPIO2 false; setGPIO3 false; setGPIO3 true; setGPIO3 false ]
  end.
Proof.
  unfold issued.
  destruct o; try (run; apply skipn_length_app).
  - unfold exec, setAmplitude, rejected.
    destruct (float_lt amplitude AMPLITUDE_MIN || float_lt AMPLITUDE_MAX amplitude);
      run; apply skipn_length_app.
  - unfold exec, setFrequency, rejected.
    destruct (float_lt frequency FREQUENCY_MIN || float_lt FREQUENCY_MAX frequency);
      run; apply skipn_length_app.
Qed.

(** The trace only grows. *)
Lemma trace_exec (cp2130_ : list event -> event -> Z * string)
      (o : operation) (s : state) :
  trace (exec cp2130_ o s) = trace s ++ issued cp2130_ o s.
Proof.
  rewrite issued_eq.
  destruct o; try (run; reflexivity).
  - unfold exec, setAmplitude, rejected.
    destruct (float_lt amplitude AMPLITUDE_MIN || float_lt AMPLITUDE_MAX amplitude);
      run; reflexivity.
  - unfold exec, setFrequency, rejected.
    destruct (float_lt frequency FREQUENCY_MIN || float_lt FREQUENCY_MAX frequency);
      run; reflexivity.
Qed.

End DriverFacts.

(* ================================================================== *)
(** * Properties of the driver *)
(* ================================================================== *)

Import IEEE754 CP2130 GF1Device.

(** Splits a conjunction into its parts, and nothing else. *)
Ltac conjuncts := repeat match goal with |- _ /\ _ => split end.

(** Settles a closed statement by evaluation. *)
Ltac evaluate := vm_compute; first [ reflexivity | discriminate ].

(** ** Out-of-range arguments *)

(** C4 fails at a NaN.  Every comparison with a NaN is false, so neither
    half of the guard holds: the call is not refused.  [setAmplitude]
    selects channel 1 and writes a byte to the potentiometer, [setFrequency]
    drives the control lines and writes a frame to the waveform generator,
    and neither adds to the error counter or to the error string, though a
    NaN is not "between 0 and 5" nor "between 0 and 25000", as the messages
    of the guard put it. *)
Theorem not_a_number_is_not_refused
        (cp2130_ : list event -> event -> Z * string) (s : state) :
  float_lt NaN AMPLITUDE_MIN = false /\
  float_lt AMPLITUDE_MAX NaN = false /\
  float_lt NaN FREQUENCY_MIN = false /\
  float_lt FREQUENCY_MAX NaN = false /\
  rejected (op_setAmplitude NaN) = false /\
  rejected (op_setFrequency NaN) = false /\
  (exists code,
     issued cp2130_ (op_setAmplitude NaN) s =
       [ selectCS 1; spiWrite [ code ] EPOUT; usleep 100; disableCS 1 ]) /\
  (exists code,
     issued cp2130_ (op_setFrequency NaN) s =
       [ setGPIO2 false; setGPIO3 false; setGPIO3 true; setGPIO3 false;
         selectCS 0; spiWrite (frequencyFrame code) EPOUT;
         usleep 100; disableCS 0; setGPIO2 true; setGPIO2 false ]) /\
  errcnt (setAmplitude quiet NaN fresh) = 0 /\
  errstr (setAmplitude quiet NaN fresh) = EmptyString /\
  selects (trace (setAmplitude quiet NaN fresh)) = true /\
  List.length (frames (trace (setAmplitude quiet NaN fresh))) = 1%nat /\
  errcnt (setFrequency quiet NaN fresh) = 0 /\
  errstr (setFrequency quiet NaN fresh) = EmptyString /\
  selects (trace (setFrequency quiet NaN fresh)) = true /\
  List.length (frames (trace (setFrequency quiet NaN fresh))) = 1%nat.
Proof.
  rewrite !DriverFacts.issued_eq.
  conjuncts; try reflexivity; eexists; reflexivity.
Qed.

(** What the guard does refuse.  An amplitude that compares below 0 or
    above 5, a frequency that compares below 0 or above 25000, the
    infinities among them: [setAmplitude], respectively [setFrequency],
    increments the error counter, appends its message to the error string
    and issues no event at all -- no SPI transfer, no change of chip
    select, no GPIO write -- so that the pins stay as they were.  The
    counter is an [int]: below [INT_MAX] it grows by one, at [INT_MAX] the
    increment wraps around. *)
Lemma out_of_range_is_refused
      (cp2130_ : list event -> event -> Z * string) (s : state) (p : pins)
      (amplitude frequency : Q) :
  (amplitude < 0 \/ 5 < amplitude)%Q ->
  (frequency < 0 \/ 25000 < frequency)%Q ->
  setAmplitude cp2130_ amplitude s =
    {| errcnt := int_wrap (errcnt s + 1);
       errstr := errstr s ++ "In setAmplitude(): Amplitude must be between 0 and 5." ++ newline;
       trace := trace s |} /\
  issued cp2130_ (op_setAmplitude amplitude) s = [] /\
  drive_all p (issued cp2130_ (op_setAmplitude amplitude) s) = p /\
  setFrequency cp2130_ frequency s =
    {| errcnt := int_wrap (errcnt s + 1);
       errstr := errstr s ++ "In setFrequency(): Frequency must be between 0 and 25000." ++ newline;
       trace := trace s |} /\
  issued cp2130_ (op_setFrequency frequency) s = [] /\
  drive_all p (issued cp2130_ (op_setFrequency frequency) s) = p /\
  (INT_MIN <= errcnt s < INT_MAX ->
   errcnt (setAmplitude cp2130_ amplitude s) = errcnt s + 1 /\
   errcnt (setFrequency cp2130_ frequency s) = errcnt s + 1) /\
  (errcnt s = INT_MAX ->
   errcnt (setAmplitude cp2130_ amplitude s) = INT_MIN /\
   errcnt (setFrequency cp2130_ frequency s) = INT_MIN) /\
  (forall negative,
     setAmplitude cp2130_ (Infinity negative) s =
       setAmplitude cp2130_ amplitude s /\
     setFrequency cp2130_ (Infinity negative) s =
       setFrequency cp2130_ frequency s).
Proof.
  intros Ha Hf.
  apply DriverFacts.rejected_amplitude in Ha.
  apply DriverFacts.rejected_frequency in Hf.
  rewrite !DriverFacts.issued_eq, Ha, Hf.
  unfold setAmplitude, setFrequency. unfold rejected in Ha, Hf.
  rewrite Ha, Hf. cbn [errcnt logic_error].
  conjuncts; try reflexivity.
  - intros B. rewrite DriverFacts.int_wrap_small by (unfold INT_MIN, INT_MAX in *; lia).
    split; reflexivity.
  - intros ->. split; reflexivity.
  - intros []; split; reflexivity.
Qed.

(** The refusal at the single-precision values nearest to 5.1 and to -0.1
    and at the first [float] above 25000. *)
Lemma out_of_range_is_refused_witness :
  (binary32 (10695475 # 2097152) = true /\
   binary32 (- (13421773 # 134217728)) = true /\
   binary32 (12800001 # 512) = true) /\
  issued quiet (op_setAmplitude (10695475 # 2097152)) fresh = [] /\
  issued quiet (op_setAmplitude (- (13421773 # 134217728))) fresh = [] /\
  errcnt (setAmplitude quiet (10695475 # 2097152) fresh) = 1 /\
  issued quiet (op_setFrequency (12800001 # 512)) fresh = [].
Proof.
  split; [conjuncts; evaluate|].
  pose proof (out_of_range_is_refused quiet fresh
                {| gpio2 := true; gpio3 := true; cs := fun _ => true |}
                (10695475 # 2097152) (12800001 # 512)
                (or_intror eq_refl) (or_intror eq_refl)) as H1.
  pose proof (out_of_range_is_refused quiet fresh
                {| gpio2 := true; gpio3 := true; cs := fun _ => true |}
                (- (13421773 # 134217728)) (12800001 # 512)
                (or_introl eq_refl) (or_intror eq_refl)) as H2.
  destruct H1 as (E1 & I1 & _ & _ & I2 & _).
  destruct H2 as (_ & I3 & _).
  split; [exact I1 | split; [exact I3 | split; [rewrite E1; reflexivity | exact I2]]].
Defined.

(** ** Start and stop *)

(** C7. [start] drives GPIO.2 (CTRL) and GPIO.3 (INTERRUPT) low and then
    pulses CTRL high and low; [stop] drives both low and then pulses
    INTERRUPT high and low; after [start] followed by [stop] the level last
    written to each line is low, and both lines are low whatever they were
    before. *)
Theorem start_then_stop
        (cp2130_ : list event -> event -> Z * string) (s : state) (p : pins) :
  issued cp2130_ op_start s =
    [ setGPIO2 false; setGPIO3 false; setGPIO2 true; setGPIO2 false ] /\
  issued cp2130_ op_stop s =
    [ setGPIO2 false; setGPIO3 false; setGPIO3 true; setGPIO3 false ] /\
  trace (stop cp2130_ (start cp2130_ s)) =
    trace s ++ [ setGPIO2 false; setGPIO3 false; setGPIO2 true; setGPIO2 false;
                 setGPIO2 false; setGPIO3 false; setGPIO3 true; setGPIO3 false ] /\
  last_gpio2 (issued cp2130_ op_start s ++
              issued cp2130_ op_stop (start cp2130_ s)) = Some false /\
  last_gpio3 (issued cp2130_ op_start s ++
              issued cp2130_ op_stop (start cp2130_ s)) = Some false /\
  gpio2 (drive_all p (issued cp2130_ op_start s ++
                      issued cp2130_ op_stop (start cp2130_ s))) = false /\
  gpio3 (drive_all p (issued cp2130_ op_start s ++
                      issued cp2130_ op_stop (start cp2130_ s))) = false.
Proof.
  rewrite !DriverFacts.issued_eq. repeat split.
  change (stop cp2130_ (start cp2130_ s))
    with (exec cp2130_ op_stop (exec cp2130_ op_start s)).
  rewrite !DriverFacts.trace_exec, !DriverFacts.issued_eq, <- app_assoc.
  reflexivity.
Qed.

(** ** The control lines on return *)

(** C10. Each of [setFrequency], [setSineWave], [setTriangleWave], [clear],
    [start] and [stop], when it drives the control lines at all (a refused
    [setFrequency] issues nothing), writes low last to GPIO.2 and last to
    GPIO.3, so that both lines are low when it returns, whatever they were
    before. *)
Theorem control_lines_end_low
        (cp2130_ : list event -> event -> Z * string)
        (o : operation) (s : state) (p : pins) :
  drives_control o = true ->
  if rejected o then issued cp2130_ o s = []
  else
    last_gpio2 (issued cp2130_ o s) = Some false /\
    last_gpio3 (issued cp2130_ o s) = Some false /\
    gpio2 (drive_all p (issued cp2130_ o s)) = false /\
    gpio3 (drive_all p (issued cp2130_ o s)) = false.
Proof.
  intros D.
  destruct o; try discriminate D;
    try (cbn [rejected]; rewrite DriverFacts.issued_eq; repeat split; fail).
  destruct (rejected (op_setFrequency frequency)) eqn:R;
    rewrite DriverFacts.issued_eq, R; [reflexivity | repeat split].
Qed.

(** C10, for [start] and for [setFrequency] at 25000 kHz, from all lines high. *)
Lemma control_lines_end_low_witness :
  (last_gpio2 (issued quiet op_start fresh) = Some false /\
   last_gpio3 (issued quiet op_start fresh) = Some false /\
   gpio2 (drive_all {| gpio2 := true; gpio3 := true; cs := fun _ => true |}
                    (issued quiet op_start fresh)) = false /\
   gpio3 (drive_all {| gpio2 := true; gpio3 := true; cs := fun _ => true |}
                    (issued quiet op_start fresh)) = false) /\
  last_gpio2 (issued quiet (op_setFrequency 25000) fresh) = Some false.
Proof.
  split.
  - exact (control_lines_end_low quiet op_start fresh
             {| gpio2 := true; gpio3 := true; cs := fun _ => true |} eq_refl).
  - exact (proj1 (control_lines_end_low quiet (op_setFrequency 25000) fresh
             {| gpio2 := true; gpio3 := true; cs := fun _ => true |} eq_refl)).
Defined.

(** ** The hardware revision *)

Lemma decimal_not_empty (n : Z) : decimal n <> EmptyString.
Proof.
  unfold decimal. destruct (Z.to_int n) as [d|d]; cbn.
  - destruct d; discriminate.
  - discriminate.
Qed.

(** C5. [hardwareRevision] turns the major release numbers 2 to 27 into the
    letters A to Z and no other into a letter (0 and 1 give none); it appends
    the minor number only if that number is not zero or no letter was
    produced.  Revisions (2, 0), (1, 3), (3, 1) and (0, 0) read "A", "3",
    "B1" and "". *)
Theorem hardware_revision_format (major minor : Z) :
  let config := {| majrel := major; minrel := minor |} in
  hardwareRevision config = (majorLetter config ++ minorNumber config)%string /\
  majorLetter config =
    (if (2 <=? major) && (major <=? 27)
     then String (ascii_of_nat (Z.to_nat (65 + (major - 2)))) EmptyString
     else EmptyString) /\
  (minorNumber config <> EmptyString ->
   minor <> 0 \/ majorLetter config = EmptyString) /\
  majorLetter {| majrel := 2; minrel := minor |} = "A"%string /\
  majorLetter {| majrel := 27; minrel := minor |} = "Z"%string /\
  majorLetter {| majrel := 1; minrel := minor |} = EmptyString /\
  majorLetter {| majrel := 0; minrel := minor |} = EmptyString /\
  hardwareRevision {| majrel := 2; minrel := 0 |} = "A"%string /\
  hardwareRevision {| majrel := 1; minrel := 3 |} = "3"%string /\
  hardwareRevision {| majrel := 3; minrel := 1 |} = "B1"%string /\
  hardwareRevision {| majrel := 0; minrel := 0 |} = EmptyString.
Proof.
  cbv zeta. repeat split.
  - unfold majorLetter; cbn [majrel].
    destruct (Z.ltb_spec 1 major), (Z.leb_spec 2 major), (Z.leb_spec major 27);
      cbn [andb]; try lia; try reflexivity.
    rewrite Z.mod_small by lia.
    replace (major + 65 - 2) with (65 + (major - 2)) by lia. reflexivity.
  - intros H. unfold minorNumber in H; cbn [majrel minrel] in H.
    destruct (Z.eqb_spec major 1) as [E|E].
    + right. rewrite E. reflexivity.
    + cbn [orb] in H. destruct (Z.eqb_spec minor 0) as [E0|E0].
      * cbn [negb] in H. contradiction.
      * left. exact E0.
Qed.

(** The digits of [decimal n] are those of [n]: read as a decimal number,
    the string gives [n] back. *)
Lemma decimal_reads_back (n : Z) :
  option_map Z.of_int (NilZero.int_of_string (decimal n)) = Some n.
Proof.
  unfold decimal. rewrite NilZero.isi.
  - cbn [option_map]. rewrite DecimalZ.of_to. reflexivity.
  - destruct n; cbn; try discriminate.
    intros H. injection H. apply DecimalPos.Unsigned.to_uint_nonnil.
  - destruct n; cbn; try discriminate.
    intros H. injection H. apply DecimalPos.Unsigned.to_uint_nonnil.
Qed.

(** C9. With major release 1 the minor number is always appended, a zero
    too: revision (1, 0) reads "0", not the empty string.  The string is
    the minor number in decimal and nothing else: read as a decimal number
    it gives the minor number back; revisions (1, 7), (1, 10), (1, 42) and
    (1, 255) read "7", "10", "42" and "255". *)
Theorem hardware_revision_major_one (minor : Z) :
  hardwareRevision {| majrel := 1; minrel := minor |} = decimal minor /\
  decimal minor <> EmptyString /\
  hardwareRevision {| majrel := 1; minrel := 0 |} = "0"%string /\
  hardwareRevision {| majrel := 1; minrel := 0 |} <> EmptyString /\
  option_map Z.of_int
    (NilZero.int_of_string (hardwareRevision {| majrel := 1; minrel := minor |})) =
    Some minor /\
  hardwareRevision {| majrel := 1; minrel := 7 |} = "7"%string /\
  hardwareRevision {| majrel := 1; minrel := 10 |} = "10"%string /\
  hardwareRevision {| majrel := 1; minrel := 42 |} = "42"%string /\
  hardwareRevision {| majrel := 1; minrel := 255 |} = "255"%string.
Proof.
  conjuncts; try reflexivity.
  - apply decimal_not_empty.
  - discriminate.
  - apply decimal_reads_back.
Qed.

(** ** Chip selects *)

(** C8, as stated, fails on [clear]: it selects channel 0, then channel 1,
    and disables channel 1 only; no [disableCS 0] follows the [selectCS 0]. *)
Lemma clear_does_not_disable_channel_0 :
  issued quiet op_clear fresh =
    [ setGPIO2 false; setGPIO3 false; selectCS 0;
      spiWrite [ 0x0f; 0xdf; 0x10; 0x00; 0x20; 0x00; 0x30; 0x00;
                 0x40; 0x00; 0xc0; 0x00; 0xc0; 0x00 ] 0x01;
      usleep 100; selectCS 1; spiWrite [ 0x00 ] 0x01; usleep 100;
      disableCS 1 ] /\
  count_disable 0 (issued quiet op_clear fresh) = 0%nat /\
  cs_paired (issued quiet op_clear fresh) = false.
Proof. repeat split. Qed.

(** C8, amended.  In every operation each [selectCS] is followed by exactly
    one event that disables the chip select of that channel.  In every
    operation but [clear] that event is a [disableCS] of the same channel;
    [clear] selects channel 0, then channel 1 -- which disables channel 0 --
    and calls [disableCS] on channel 1 only.  In every operation each SPI
    transfer is followed by the 100 microsecond pause and then by the change
    of chip select, and no chip select is enabled on return: an operation
    that selects one leaves all of them disabled, the others leave them as
    they were. *)
Theorem chip_select_discipline
        (cp2130_ : list event -> event -> Z * string)
        (o : operation) (s : state) (p : pins) (k : Z) :
  cs_released (issued cp2130_ o s) = true /\
  cs_paired (issued cp2130_ o s) =
    match o with op_clear => false | _ => true end /\
  issued cp2130_ op_clear s =
    [ setGPIO2 false; setGPIO3 false; selectCS 0;
      spiWrite [ 0x0f; 0xdf; 0x10; 0x00; 0x20; 0x00; 0x30; 0x00;
                 0x40; 0x00; 0xc0; 0x00; 0xc0; 0x00 ] EPOUT;
      usleep 100; selectCS 1; spiWrite [ 0x00 ] EPOUT; usleep 100;
      disableCS 1 ] /\
  settled (issued cp2130_ o s) = true /\
  cs (drive_all p (issued cp2130_ o s)) k =
    (if selects (issued cp2130_ o s) then false else cs p k).
Proof.
  rewrite !DriverFacts.issued_eq.
  destruct o;
    try destruct (rejected (op_setAmplitude amplitude));
    try destruct (rejected (op_setFrequency frequency));
    repeat split; cbn;
    try reflexivity;
    destruct (Z.eqb_spec k 0), (Z.eqb_spec k 1); try reflexivity; lia.
Qed.

(** ** The frequency frame *)

(** C2, as stated, fails: the frame of [setFrequency] has 12 bytes, not 14
    (the 14-byte frame is the one of [clear], which carries the two bytes of
    the control register in front). *)
Lemma frequency_frame_is_not_14_bytes :
  frames (issued quiet (op_setFrequency 25000) fresh) =
    [ [ 0x10; 0x00; 0x20; 0x00; 0x30; 0x00; 0x40; 0x00; 0xc0; 0x00; 0xd8; 0x00 ] ] /\
  map (@List.length Z) (frames (issued quiet (op_setFrequency 25000) fresh)) = [ 12%nat ] /\
  map (@List.length Z) (frames (issued quiet (op_setFrequency 25000) fresh)) <> [ 14%nat ].
Proof. repeat split. discriminate. Qed.

Lemma lor_tag (y : Z) :
  0 <= y < 16 -> Z.lor 0xc0 y = 0xc0 + y /\ Z.lor 0xd0 y = 0xd0 + y.
Proof.
  intros H.
  assert (C : y = 0 \/ y = 1 \/ y = 2 \/ y = 3 \/ y = 4 \/ y = 5 \/ y = 6 \/ y = 7 \/
              y = 8 \/ y = 9 \/ y = 10 \/ y = 11 \/ y = 12 \/ y = 13 \/ y = 14 \/ y = 15)
    by lia.
  repeat (destruct C as [C|C]; [subst y; split; reflexivity|]).
  subst y; split; reflexivity.
Qed.

Lemma land_nibble (x : Z) : Z.land 0x0f x = x mod 16.
Proof.
  rewrite Z.land_comm. change 0x0f with (Z.ones 4).
  rewrite Z.land_ones by lia. reflexivity.
Qed.

(** The register prefixes of the two start-frequency fields, for any code. *)
Lemma frequencyFrame_tags (code : Z) :
  List.length (frequencyFrame code) = 12%nat /\
  firstn 8 (frequencyFrame code) = [ 0x10; 0x00; 0x20; 0x00; 0x30; 0x00; 0x40; 0x00 ] /\
  nth 8 (frequencyFrame code) 0 / 16 = 0xc /\
  nth 10 (frequencyFrame code) 0 / 16 = 0xd /\
  Forall (fun b => 0 <= b < 256) (frequencyFrame code).
Proof.
  unfold frequencyFrame, uint8, FSTARTLSB, FSTARTMSB. cbn [List.length firstn nth].
  rewrite !land_nibble.
  pose proof (Z.mod_pos_bound (Z.shiftr code 8) 16 ltac:(lia)) as B1.
  pose proof (Z.mod_pos_bound (Z.shiftr code 20) 16 ltac:(lia)) as B2.
  destruct (lor_tag _ B1) as [L1 _]. destruct (lor_tag _ B2) as [_ L2].
  rewrite L1, L2. change (2 ^ 8) with 256.
  repeat split.
  - rewrite Z.mod_small by lia. Z.to_euclidean_division_equations; lia.
  - rewrite Z.mod_small by lia. Z.to_euclidean_division_equations; lia.
  - repeat constructor; try lia; apply Z.mod_pos_bound; lia.
Qed.

(** The bytes of the two start-frequency fields of a 24-bit code. *)
Lemma frequencyFrame_layout (code : Z) :
  0 <= code < 2 ^ 24 ->
  frequencyFrame code =
    [ 0x10; 0x00; 0x20; 0x00; 0x30; 0x00; 0x40; 0x00;
      0xc0 + (code mod 2 ^ 12) / 2 ^ 8; (code mod 2 ^ 12) mod 2 ^ 8;
      0xd0 + (code / 2 ^ 12) / 2 ^ 8; (code / 2 ^ 12) mod 2 ^ 8 ].
Proof.
  intros H. unfold frequencyFrame, uint8, FSTARTLSB, FSTARTMSB.
  rewrite !land_nibble, !Z.shiftr_div_pow2 by lia.
  pose proof (Z.mod_pos_bound (code / 2 ^ 8) 16 ltac:(lia)) as B1.
  pose proof (Z.mod_pos_bound (code / 2 ^ 20) 16 ltac:(lia)) as B2.
  destruct (lor_tag _ B1) as [L1 _]. destruct (lor_tag _ B2) as [_ L2].
  rewrite L1, L2.
  change (2 ^ 8) with 256 in *. change (2 ^ 12) with 4096 in *.
  change (2 ^ 20) with 1048576 in *. change (2 ^ 24) with 16777216 in *.
  assert (E1 : (192 + (code / 256) mod 16) mod 256 = 192 + code mod 4096 / 256)
    by (Z.to_euclidean_division_equations; lia).
  assert (E2 : code mod 256 = (code mod 4096) mod 256)
    by (Z.to_euclidean_division_equations; lia).
  assert (E3 : (208 + (code / 1048576) mod 16) mod 256 = 208 + code / 4096 / 256)
    by (Z.to_euclidean_division_equations; lia).
  rewrite E1, E2, E3. reflexivity.
Qed.

(** C2, amended.  For a frequency in range the one SPI transfer of
    [setFrequency] carries 12 bytes: four two-byte register words with zero
    data (registers 0x1, 0x2, 0x3, 0x4) followed by the two-byte word of the
    low start-frequency register, prefix 0xC, and the two-byte word of the
    high start-frequency register, prefix 0xD. *)
Theorem frequency_frame_shape
        (cp2130_ : list event -> event -> Z * string) (s : state) (f : Q) :
  (0 <= f)%Q -> (f <= 25000)%Q ->
  let frame := frequencyFrame (frequencyCode f) in
  frames (issued cp2130_ (op_setFrequency f) s) = [ frame ] /\
  List.length frame = 12%nat /\
  firstn 8 frame = [ 0x10; 0x00; 0x20; 0x00; 0x30; 0x00; 0x40; 0x00 ] /\
  nth 8 frame 0 / 16 = 0xc /\
  nth 10 frame 0 / 16 = 0xd /\
  Forall (fun b => 0 <= b < 256) frame.
Proof.
  intros H0 H1 frame.
  assert (A : rejected (op_setFrequency f) = false)
    by (apply DriverFacts.accepted_frequency; split; assumption).
  rewrite DriverFacts.issued_eq, A.
  split; [reflexivity | apply frequencyFrame_tags].
Qed.

(** C2 amended, at 25000 kHz. *)
Lemma frequency_frame_shape_witness :
  frames (issued quiet (op_setFrequency 25000) fresh) =
    [ frequencyFrame (frequencyCode 25000) ] /\
  List.length (frequencyFrame (frequencyCode 25000)) = 12%nat.
Proof.
  pose proof (frequency_frame_shape quiet fresh 25000
                ltac:(discriminate) ltac:(discriminate)) as H.
  cbv zeta in H. destruct H as (F & L & _). split; [exact F | exact L].
Defined.

(** ** The frequency code *)

(** C1, as stated, fails at the [float] 12500 + 2^-10 kHz.  The exact
    quotient [f * 2^24 / 50000] is 4194304.32768, which rounds to 4194304;
    the driver divides in single precision, where the quotient is
    4194304.5 (the standard library's IEEE 754 division agrees), and
    adding 0.5 and truncating gives 4194305. *)
Lemma frequency_code_is_not_the_exact_rounding :
  let f := (12800001 # 1024)%Q in
  binary32 f = true /\
  (0 <= f)%Q /\ (f <= 25000)%Q /\
  (f * inject_Z FQUANTUM / MCLK == 4194304 + (32768 # 100000))%Q /\
  Qfloor (f * inject_Z FQUANTUM / MCLK + (1 # 2)) = 4194304 /\
  frequencyQuotient f = (8388609 # 2)%Q /\
  (SF2Q (SFdiv 24 128
           (SFmul 24 128 (S754_finite false 12800001 (-10))
                         (S754_finite false 8388608 1))
           (S754_finite false 12800000 (-8))) == 8388609 # 2)%Q /\
  frequencyCode f = 4194305 /\
  frequencyCode f <> Qfloor (f * inject_Z FQUANTUM / MCLK + (1 # 2)) /\
  frames (issued quiet (op_setFrequency f) fresh) =
    [ [ 0x10; 0x00; 0x20; 0x00; 0x30; 0x00; 0x40; 0x00; 0xc0; 0x01; 0xd4; 0x00 ] ].
Proof.
  cbv zeta. conjuncts; evaluate.
Qed.

(** C1, amended.  For every [float] frequency in [0, 25000] the code is the
    single-precision quotient [frequency * FQUANTUM / MCLK] rounded half up;
    that quotient is within 1/4 of the exact [f * 2^24 / 50000].  The code
    is at most 2^23, a 24-bit value; its low 12 bits fill the low
    start-frequency word (first byte 0xC0 plus bits 11..8, second byte bits
    7..0) and its high 12 bits the high start-frequency word (first byte
    0xD0 plus bits 23..20, second byte bits 19..12).  At 25000 the code is
    8388608 = 0x800000: low word 0xC0 0x00, high word 0xD8 0x00. *)
Theorem frequency_code_and_packing
        (cp2130_ : list event -> event -> Z * string) (s : state) (f : Q) :
  binary32 f = true -> (0 <= f)%Q -> (f <= 25000)%Q ->
  let code := frequencyCode f in
  code = Qfloor (frequencyQuotient f + (1 # 2)) /\
  (Qabs (frequencyQuotient f - f * inject_Z FQUANTUM / MCLK) <= 1 # 4)%Q /\
  0 <= code <= 8388608 /\
  frames (issued cp2130_ (op_setFrequency f) s) =
    [ [ 0x10; 0x00; 0x20; 0x00; 0x30; 0x00; 0x40; 0x00;
        0xc0 + (code mod 2 ^ 12) / 2 ^ 8; (code mod 2 ^ 12) mod 2 ^ 8;
        0xd0 + (code / 2 ^ 12) / 2 ^ 8; (code / 2 ^ 12) mod 2 ^ 8 ] ] /\
  frequencyCode 25000 = 0x800000 /\
  0x800000 mod 2 ^ 12 = 0x000 /\ 0x800000 / 2 ^ 12 = 0x800 /\
  frames (issued cp2130_ (op_setFrequency 25000) s) =
    [ [ 0x10; 0x00; 0x20; 0x00; 0x30; 0x00; 0x40; 0x00; 0xc0; 0x00; 0xd8; 0x00 ] ].
Proof.
  intros B H0 H1 code.
  destruct (ConversionFacts.frequencyCode_half_up f H0 H1) as [E R].
  assert (A : rejected (op_setFrequency f) = false)
    by (apply DriverFacts.accepted_frequency; split; assumption).
  repeat split; try (exact E); try (apply R).
  - exact (ConversionFacts.frequencyQuotient_error f B H0 H1).
  - rewrite DriverFacts.issued_eq, A. cbn [frames]. fold code.
    rewrite frequencyFrame_layout; [reflexivity|].
    change (2 ^ 24) with 16777216. unfold code. lia.
  - rewrite DriverFacts.issued_eq. reflexivity.
Qed.

(** C1 amended, at 25000 kHz. *)
Lemma frequency_code_and_packing_witness :
  frequencyCode 25000 = Qfloor (frequencyQuotient 25000 + (1 # 2)) /\
  frequencyCode 25000 = 0x800000.
Proof.
  pose proof (frequency_code_and_packing quiet fresh 25000
                eq_refl ltac:(discriminate) ltac:(discriminate)) as H.
  cbv zeta in H. destruct H as (E & _ & _ & _ & C & _). split; [exact E | exact C].
Defined.

(** ** The amplitude code *)

(** C3, as stated, fails at the [float] 853253 * 2^-20 = 0.81372547... V.
    The exact [v * 255 / 5] is 41.49999905, which rounds to 41; in single
    precision [v * 255] is 207.5 and the quotient 41.5 (the standard
    library's IEEE 754 operations agree), so that the byte written is 42. *)
Lemma amplitude_code_is_not_the_exact_rounding :
  let v := (853253 # 1048576)%Q in
  binary32 v = true /\
  (0 <= v)%Q /\ (v <= 5)%Q /\
  (v * inject_Z AQUANTUM / AMPLITUDE_MAX < 41 + (1 # 2))%Q /\
  Qfloor (v * inject_Z AQUANTUM / AMPLITUDE_MAX + (1 # 2)) = 41 /\
  fmul v (float_of_uint AQUANTUM) = (415 # 2)%Q /\
  amplitudeQuotient v = (83 # 2)%Q /\
  (SF2Q (SFdiv 24 128
           (SFmul 24 128 (S754_finite false 13652048 (-24))
                         (S754_finite false 16711680 (-16)))
           (S754_finite false 10485760 (-21))) == 83 # 2)%Q /\
  amplitudeCode v = 42 /\
  amplitudeCode v <> Qfloor (v * inject_Z AQUANTUM / AMPLITUDE_MAX + (1 # 2)) /\
  frames (issued quiet (op_setAmplitude v) fresh) = [ [ 42 ] ].
Proof.
  cbv zeta. conjuncts; evaluate.
Qed.

(** C3, amended.  For every amplitude in [0, 5] the one byte that
    [setAmplitude] writes is the single-precision quotient
    [amplitude * AQUANTUM / AMPLITUDE_MAX] rounded half up; that quotient is
    within 1/50000 of the exact [v * 255 / 5].  The code lies in 0..255, so
    the conversion to a byte neither wraps nor clamps.  At 2.5 V the code is
    128 = 0x80. *)
Theorem amplitude_code_and_frame
        (cp2130_ : list event -> event -> Z * string) (s : state) (v : Q) :
  (0 <= v)%Q -> (v <= 5)%Q ->
  let code := amplitudeCode v in
  code = Qfloor (amplitudeQuotient v + (1 # 2)) /\
  (Qabs (amplitudeQuotient v - v * inject_Z AQUANTUM / AMPLITUDE_MAX) <= 1 # 50000)%Q /\
  0 <= code <= 255 /\
  frames (issued cp2130_ (op_setAmplitude v) s) = [ [ code ] ] /\
  amplitudeCode (5 # 2) = 0x80 /\
  frames (issued cp2130_ (op_setAmplitude (5 # 2)) s) = [ [ 0x80 ] ].
Proof.
  intros H0 H1 code.
  destruct (ConversionFacts.amplitudeCode_half_up v H0 H1) as [E R].
  assert (A : rejected (op_setAmplitude v) = false)
    by (apply DriverFacts.accepted_amplitude; split; assumption).
  repeat split; try (exact E); try (apply R).
  - pose proof (ConversionFacts.amplitudeQuotient_error v H0 H1) as Q.
    assert (X : (v * inject_Z AQUANTUM / AMPLITUDE_MAX == 51 * v)%Q).
    { unfold AQUANTUM, AMPLITUDE_MAX. field. }
    rewrite X. exact Q.
  - rewrite DriverFacts.issued_eq, A. reflexivity.
  - rewrite DriverFacts.issued_eq. reflexivity.
Qed.

(** C3 amended, at 2.5 V. *)
Lemma amplitude_code_and_frame_witness :
  amplitudeCode (5 # 2) = Qfloor (amplitudeQuotient (5 # 2) + (1 # 2)) /\
  frames (issued quiet (op_setAmplitude (5 # 2)) fresh) = [ [ 128 ] ].
Proof.
  pose proof (amplitude_code_and_frame quiet fresh (5 # 2)
                ltac:(discriminate) ltac:(discriminate)) as H.
  cbv zeta in H. destruct H as (E & _ & _ & _ & _ & F). split; [exact E | exact F].
Defined.

(** ** Monotonicity and precision of the conversions *)

(** C6, as stated, fails in its two precision bounds.  At 2.5 V the code is
    128 and [expectedAmplitude] returns the [float] nearest to 640/255,
    which lies above it: more than half a quantum (5/510 V) from 2.5.  At
    the [float] 12500 + 2^-10 kHz the code is 4194305 and
    [expectedFrequency] returns 12500 + 3 * 2^-10: off by 2^-9 kHz, where
    half a quantum is 50000/2^25 kHz.  The standard library's IEEE 754
    operations give the same two results. *)
Lemma expected_values_miss_half_a_quantum :
  let v := (5 # 2)%Q in
  let f := (12800001 # 1024)%Q in
  binary32 v = true /\ (0 <= v)%Q /\ (v <= 5)%Q /\
  expectedAmplitude v = (10526881 # 4194304)%Q /\
  (SF2Q (SFdiv 24 128
           (SFmul 24 128 (S754_finite false 8388608 (-16))
                         (S754_finite false 10485760 (-21)))
           (S754_finite false 16711680 (-16))) == 10526881 # 4194304)%Q /\
  (5 # 510 < Qabs (expectedAmplitude v - v))%Q /\
  binary32 f = true /\ (0 <= f)%Q /\ (f <= 25000)%Q /\
  expectedFrequency f = (12800003 # 1024)%Q /\
  (SF2Q (SFdiv 24 128
           (SFmul 24 128 (S754_finite false 8388610 (-1))
                         (S754_finite false 12800000 (-8)))
           (S754_finite false 8388608 1)) == 12800003 # 1024)%Q /\
  (Qabs (expectedFrequency f - f) == 1 # 512)%Q /\
  (50000 # 33554432 < Qabs (expectedFrequency f - f))%Q.
Proof.
  cbv zeta. conjuncts; evaluate.
Qed.

(** C6, amended.  On [0, 5] the amplitude code is monotone in the amplitude,
    and [expectedAmplitude v] is within half a quantum of [v] up to the
    rounding of the single-precision operations: within 5/510 + 2^-20 V.
    On [0, 25000] the frequency code is monotone in the frequency, and for a
    [float] frequency [expectedFrequency f] is within one quantum,
    50000/2^24 kHz, of [f]. *)
Theorem conversions_monotone_and_close (v w f g : Q) :
  (0 <= v)%Q -> (v <= w)%Q -> (w <= 5)%Q ->
  (0 <= f)%Q -> (f <= g)%Q -> (g <= 25000)%Q ->
  binary32 f = true ->
  amplitudeCode v <= amplitudeCode w /\
  (Qabs (expectedAmplitude v - v) <= (5 # 510) + (1 # 1048576))%Q /\
  frequencyCode f <= frequencyCode g /\
  (Qabs (expectedFrequency f - f) <= 50000 # 16777216)%Q.
Proof.
  intros V0 VW W1 F0 FG G1 B. conjuncts.
  - apply ConversionFacts.amplitudeCode_le; assumption.
  - apply ConversionFacts.expectedAmplitude_error; [assumption|].
    apply Qle_trans with w; assumption.
  - apply ConversionFacts.frequencyCode_le; assumption.
  - apply ConversionFacts.expectedFrequency_error; [assumption | assumption |].
    apply Qle_trans with g; assumption.
Qed.

(** C6 amended, between 2.5 V and 5 V and between 12500 + 2^-10 kHz and
    25000 kHz. *)
Lemma conversions_monotone_and_close_witness :
  amplitudeCode (5 # 2) <= amplitudeCode 5 /\
  (Qabs (expectedAmplitude (5 # 2) - (5 # 2)) <= (5 # 510) + (1 # 1048576))%Q /\
  frequencyCode (12800001 # 1024) <= frequencyCode 25000 /\
  (Qabs (expectedFrequency (12800001 # 1024) - (12800001 # 1024))
   <= 50000 # 16777216)%Q.
Proof.
  exact (conversions_monotone_and_close (5 # 2) 5 (12800001 # 1024) 25000
           ltac:(discriminate) ltac:(discriminate) ltac:(discriminate)
           ltac:(discriminate) ltac:(discriminate) ltac:(discriminate)
           eq_refl).
Defined.

(* ================================================================== *)
(** * Runs of operations *)
(* ================================================================== *)

Module RunFacts.

Import IEEE754 CP2130 GF1Device.

Lemma append_nil_r (a : string) : (a ++ EmptyString)%string = a.
Proof. induction a as [|c a IH]; [reflexivity | cbn; rewrite IH; reflexivity]. Qed.

Lemma append_assoc (a b c : string) :
  ((a ++ b) ++ c)%string = (a ++ (b ++ c))%string.
Proof. induction a as [|x a IH]; [reflexivity | cbn; rewrite IH; reflexivity]. Qed.

Section Reports.

Variable cp2130_ : list event -> event -> Z * string.

Lemma reports_app (t l1 l2 : list event) :
  reports cp2130_ t (l1 ++ l2) =
  (fst (reports cp2130_ t l1) + fst (reports cp2130_ (t ++ l1) l2),
   (snd (reports cp2130_ t l1) ++ snd (reports cp2130_ (t ++ l1) l2))%string).
Proof.
  revert t. induction l1 as [|e l1 IH]; intros t.
  - cbn [app reports fst snd]. rewrite app_nil_r.
    destruct (reports cp2130_ t l2) as [n m]. reflexivity.
  - cbn [app reports fst snd]. rewrite IH.
    cbn [fst snd]. rewrite <- app_assoc. cbn [app].
    rewrite Z.add_assoc, append_assoc. reflexivity.
Qed.

Lemma passed_on_call (e : event) (s : state) :
  is_call e = true -> passed_on cp2130_ s (call cp2130_ e s).
Proof.
  intros C. exists [ e ]. unfold call. cbn [trace errcnt errstr reports fst snd].
  rewrite C, Z.add_0_r, append_nil_r. repeat split.
Qed.

Lemma passed_on_then_pause (usec : Z) (s s' : state) :
  passed_on cp2130_ s s' -> passed_on cp2130_ s (pause usec s').
Proof.
  intros (l & T & C & M). exists (l ++ [ usleep usec ]).
  rewrite reports_app. unfold pause.
  cbn [trace errcnt errstr reports is_call fst snd].
  rewrite T, C, M, app_assoc, !Z.add_0_r, !append_nil_r. repeat split.
Qed.

Lemma passed_on_trans (s s' s'' : state) :
  passed_on cp2130_ s s' -> passed_on cp2130_ s' s'' -> passed_on cp2130_ s s''.
Proof.
  intros (l1 & T1 & C1 & M1) (l2 & T2 & C2 & M2).
  exists (l1 ++ l2). rewrite reports_app. cbn [fst snd].
  rewrite T2, C2, M2, T1, C1, M1, app_assoc, append_assoc.
  rewrite DriverFacts.int_wrap_add, Z.add_assoc.
  repeat split.
Qed.

(** Walks through the calls of an operation, last call first. *)
Ltac walk :=
  unfold exec, clear, reset, setSineWave, setTriangleWave,
    setupChannel0, setupChannel1, start, stop,
    clearCtrlInterrupt, toggleCtrl, toggleInterrupt, andthen;
  repeat first
    [ apply passed_on_call; reflexivity
    | apply passed_on_then_pause
    | eapply passed_on_trans; [ | apply passed_on_call; reflexivity ] ].

Lemma passed_on_exec (o : operation) (s : state) :
  rejected o = false -> passed_on cp2130_ s (exec cp2130_ o s).
Proof.
  intros A. destruct o; try (walk; fail).
  - unfold exec, setAmplitude. unfold rejected in A. rewrite A. walk.
  - unfold exec, setFrequency. unfold rejected in A. rewrite A. walk.
Qed.

Lemma refused_exec (o : operation) (s : state) :
  rejected o = true ->
  exec cp2130_ o s =
    {| errcnt := int_wrap (errcnt s + 1);
       errstr := errstr s ++ refusal o;
       trace := trace s |}.
Proof.
  intros R. destruct o; try discriminate R.
  - unfold exec, setAmplitude. unfold rejected in R. rewrite R. reflexivity.
  - unfold exec, setFrequency. unfold rejected in R. rewrite R. reflexivity.
Qed.

Lemma issued_refused (o : operation) (s : state) :
  rejected o = true -> issued cp2130_ o s = [].
Proof.
  intros R. rewrite DriverFacts.issued_eq.
  destruct o; try discriminate R; rewrite R; reflexivity.
Qed.

(** The error counter and the error string after one operation. *)
Lemma exec_errors (o : operation) (s : state) :
  errcnt (exec cp2130_ o s) =
    int_wrap (errcnt s +
              (if rejected o then 1
               else fst (reports cp2130_ (trace s) (issued cp2130_ o s)))) /\
  errstr (exec cp2130_ o s) =
    (errstr s ++
     (if rejected o then refusal o
      else snd (reports cp2130_ (trace s) (issued cp2130_ o s))))%string.
Proof.
  destruct (rejected o) eqn:R.
  - rewrite (refused_exec o s R). split; reflexivity.
  - destruct (passed_on_exec o s R) as (evs & T & C & M).
    unfold issued. rewrite T, DriverFacts.skipn_length_app. split; assumption.
Qed.

Lemma run_all_cons (o : operation) (os : list operation) (s : state) :
  run_all cp2130_ (o :: os) s = run_all cp2130_ os (exec cp2130_ o s).
Proof. reflexivity. Qed.

(** The error counter after a run: what the bridge reported for all the
    calls of the run and one for every refused request, added up as an
    [int]. *)
Lemma run_errcnt (os : list operation) (s s0 : state) :
  INT_MIN <= errcnt s <= INT_MAX ->
  errcnt (run_all cp2130_ os s) =
    int_wrap (errcnt s +
              fst (reports cp2130_ (trace s)
                     (flat_map (fun o => issued cp2130_ o s0) os)) +
              Z.of_nat (List.length (filter rejected os))).
Proof.
  revert s. induction os as [|o os IH]; intros s V.
  - cbn. rewrite !Z.add_0_r. symmetry. apply DriverFacts.int_wrap_small. exact V.
  - rewrite run_all_cons, IH.
    2:{ rewrite (proj1 (exec_errors o s)). apply DriverFacts.int_wrap_range. }
    rewrite (proj1 (exec_errors o s)), DriverFacts.trace_exec.
    cbn [flat_map filter]. rewrite reports_app. cbn [fst].
    rewrite (DriverFacts.issued_eq cp2130_ o s0), <- (DriverFacts.issued_eq cp2130_ o s).
    rewrite <- Z.add_assoc, DriverFacts.int_wrap_add. f_equal.
    destruct (rejected o) eqn:R.
    + rewrite (issued_refused o s R). cbn [reports fst List.length].
      rewrite Nat2Z.inj_succ. lia.
    + lia.
Qed.

End Reports.

Lemma reports_quiet (t evs : list event) :
  reports quiet t evs = (0, EmptyString).
Proof.
  revert t. induction evs as [|e evs IH]; intros t; [reflexivity|].
  cbn [reports]. rewrite IH. destruct (is_call e); reflexivity.
Qed.

Lemma reports_nonneg (cp2130_ : list event -> event -> Z * string)
      (t evs : list event) :
  (forall t e, 0 <= fst (cp2130_ t e)) -> 0 <= fst (reports cp2130_ t evs).
Proof.
  intros H. revert t. induction evs as [|e evs IH]; intros t.
  - cbn. lia.
  - cbn [reports fst]. specialize (IH (t ++ [ e ])).
    destruct (is_call e); [specialize (H t e)|]; cbn [fst]; lia.
Qed.

Lemma prefix_append (a b : string) : prefix a (a ++ b) = true.
Proof.
  induction a as [|c a IH]; cbn; [destruct b; reflexivity|].
  destruct (ascii_dec c c) as [_|N]; [exact IH | destruct N; reflexivity].
Qed.

Lemma prefix_trans (a b c : string) :
  prefix a b = true -> prefix b c = true -> prefix a c = true.
Proof.
  revert b c. induction a as [|x a IH]; intros b c Hab Hbc.
  - destruct c; reflexivity.
  - destruct b as [|y b]; [discriminate Hab|].
    destruct c as [|z c]; [discriminate Hbc|].
    cbn in *.
    destruct (ascii_dec x y) as [->|]; [|discriminate Hab].
    destruct (ascii_dec y z) as [->|]; [|discriminate Hbc].
    exact (IH b c Hab Hbc).
Qed.

End RunFacts.

(* ================================================================== *)
(** * Further properties of the driver *)
(* ================================================================== *)

(** ** Error reports *)

(** X1. The driver passes the errors of the bridge on and adds none of its
    own to a call it accepts: the error counter is set to its value plus
    the sum of what the bridge reported for the calls of the operation,
    as an [int], and the error string grows by the messages, in order; the
    pauses report nothing.  A refused call adds one and its own message.
    The counter stays within the limits of an [int]: where the sum exceeds
    [INT_MAX] it wraps around, a refused call at [INT_MAX] leaving
    [INT_MIN]; where it does not, the counter grows by exactly the sum.
    Over a bridge that reports nothing an accepted operation leaves both
    as they were. *)
Theorem errors_are_passed_on
        (cp2130_ : list event -> event -> Z * string)
        (o : operation) (s : state) :
  let added := if rejected o then 1
               else fst (reports cp2130_ (trace s) (issued cp2130_ o s)) in
  errcnt (exec cp2130_ o s) = int_wrap (errcnt s + added) /\
  errstr (exec cp2130_ o s) =
    (errstr s ++ (if rejected o then refusal o
                  else snd (reports cp2130_ (trace s) (issued cp2130_ o s))))%string /\
  INT_MIN <= errcnt (exec cp2130_ o s) <= INT_MAX /\
  (INT_MIN <= errcnt s + added <= INT_MAX ->
   errcnt (exec cp2130_ o s) = errcnt s + added) /\
  (errcnt s = INT_MAX -> rejected o = true ->
   errcnt (exec cp2130_ o s) = INT_MIN) /\
  (INT_MIN <= errcnt s <= INT_MAX -> rejected o = false ->
   errcnt (exec quiet o s) = errcnt s /\ errstr (exec quiet o s) = errstr s).
Proof.
  cbv zeta.
  destruct (RunFacts.exec_errors cp2130_ o s) as [C M].
  split; [|split; [|split; [|split; [|split]]]].
  - exact C.
  - exact M.
  - rewrite C. apply DriverFacts.int_wrap_range.
  - intros B. rewrite C. apply DriverFacts.int_wrap_small. exact B.
  - intros E R. rewrite C, R, E. reflexivity.
  - intros V R. destruct (RunFacts.exec_errors quiet o s) as [C' M'].
    rewrite C', M', R, RunFacts.reports_quiet. cbn [fst snd].
    rewrite Z.add_0_r, RunFacts.append_nil_r.
    split; [apply DriverFacts.int_wrap_small; exact V | reflexivity].
Qed.

(** ** What is issued, whatever has failed *)

Lemma trace_run_all (cp2130_ cp' : list event -> event -> Z * string)
      (os : list operation) (s s' : state) :
  trace (run_all cp2130_ os s) = trace s ++ flat_map (fun o => issued cp' o s') os.
Proof.
  revert s. induction os as [|o os IH]; intros s.
  - cbn. symmetry. apply app_nil_r.
  - cbn [run_all fold_left flat_map]. fold (run_all cp2130_ os (exec cp2130_ o s)).
    rewrite IH, DriverFacts.trace_exec, <- app_assoc.
    rewrite (DriverFacts.issued_eq cp2130_ o s), (DriverFacts.issued_eq cp' o s').
    reflexivity.
Qed.

(** X2. The events of an operation depend on its arguments alone: not on
    the state it starts from, not on the errors counted so far, not on what
    the bridge reports.  No failed call cuts an operation short, and a run
    of operations issues the events of each, one after the other. *)
Theorem events_do_not_depend_on_errors
        (cp2130_ cp' : list event -> event -> Z * string)
        (o : operation) (os : list operation) (s s' : state) :
  issued cp2130_ o s = issued cp' o s' /\
  trace (run_all cp2130_ os s) =
    trace s ++ flat_map (fun o => issued cp' o s') os.
Proof.
  split.
  - rewrite (DriverFacts.issued_eq cp2130_ o s), (DriverFacts.issued_eq cp' o s').
    reflexivity.
  - apply trace_run_all.
Qed.

(** ** The pins between operations *)

Lemma drive_all_app (p : pins) (t t' : list event) :
  drive_all p (t ++ t') = drive_all (drive_all p t) t'.
Proof. apply fold_left_app. Qed.

Lemma rest_is_kept_by_one
      (cp2130_ : list event -> event -> Z * string)
      (o : operation) (s : state) (p : pins) :
  at_rest p -> at_rest (drive_all p (issued cp2130_ o s)).
Proof.
  intros (G2 & G3 & C). rewrite DriverFacts.issued_eq.
  destruct o;
    try destruct (rejected (op_setAmplitude amplitude));
    try destruct (rejected (op_setFrequency frequency));
    (split; [|split]); cbn; try assumption; try reflexivity;
    intros k; try apply C;
    destruct (Z.eqb_spec k 0), (Z.eqb_spec k 1); try reflexivity; lia.
Qed.

(** X3. Starting with both control lines low and no chip select enabled,
    any run of operations other than [reset] -- with any arguments, refused
    calls included -- ends with both control lines low and no chip select
    enabled.  (What a reset of the bridge does to its pins the driver does
    not say.) *)
Theorem rest_is_kept
        (cp2130_ : list event -> event -> Z * string)
        (os : list operation) (s : state) (p : pins) :
  Forall (fun o => o <> op_reset) os ->
  at_rest p ->
  at_rest (drive_all p (skipn (List.length (trace s))
                              (trace (run_all cp2130_ os s)))).
Proof.
  intros _ R.
  rewrite (trace_run_all cp2130_ cp2130_ os s s), DriverFacts.skipn_length_app.
  revert p R. induction os as [|o os IH]; intros p R.
  - exact R.
  - cbn [flat_map]. rewrite drive_all_app. apply IH.
    apply rest_is_kept_by_one. exact R.
Qed.

(** X3, for a run that starts, sets the top frequency, stops, asks for an
    amplitude out of range and clears. *)
Lemma rest_is_kept_witness :
  at_rest (drive_all {| gpio2 := false; gpio3 := false; cs := fun _ => false |}
             (skipn (List.length (trace fresh))
                (trace (run_all quiet
                          [ op_start; op_setFrequency 25000; op_stop;
                            op_setAmplitude 6; op_clear ] fresh)))).
Proof.
  apply (rest_is_kept quiet
           [ op_start; op_setFrequency 25000; op_stop; op_setAmplitude 6; op_clear ]
           fresh {| gpio2 := false; gpio3 := false; cs := fun _ => false |}).
  - repeat constructor; discriminate.
  - repeat split.
Defined.

(** ** The pins during a transfer *)

(** X4. Every SPI transfer is made while the chip select of exactly one
    channel is enabled, whatever the pins were before the operation:
    channel 1 (the potentiometer) for the one-byte frames, channel 0 (the
    waveform generator) for all the others; and during every transfer to
    channel 0 both control lines are low. *)
Theorem transfers_are_addressed
        (cp2130_ : list event -> event -> Z * string)
        (o : operation) (s : state) (p : pins) :
  Forall (fun w : pins * list Z =>
            (forall k, cs (fst w) k =
                       (k =? (if Nat.eqb (List.length (snd w)) 1 then 1 else 0))) /\
            (Nat.eqb (List.length (snd w)) 1 = false ->
             gpio2 (fst w) = false /\ gpio3 (fst w) = false))
         (spi_writes p (issued cp2130_ o s)).
Proof.
  rewrite DriverFacts.issued_eq.
  destruct o;
    try destruct (rejected (op_setAmplitude amplitude));
    try destruct (rejected (op_setFrequency frequency));
    unfold frequencyFrame;
    cbn [spi_writes drive];
    repeat (apply Forall_cons || apply Forall_nil);
    (split; [intros k; reflexivity | intros H; try discriminate H; split; reflexivity]).
Qed.

(** ** Clearing and setting *)

(** X5. [clear] writes the control word of [setSineWave], the first five
    words of the frame of [setFrequency] at 0 kHz and the byte of
    [setAmplitude] at 0 V.  Its last word differs: where [setFrequency]
    writes the high start-frequency register (prefix 0xD), [clear] writes
    the low one (prefix 0xC) a second time.  So [clear] never writes the
    high start-frequency register, which every accepted [setFrequency]
    writes. *)
Theorem clear_and_the_setters
        (cp2130_ : list event -> event -> Z * string) (s : state) (f : Q) :
  frames (issued cp2130_ op_clear s) =
    [ (List.concat (frames (issued cp2130_ op_setSineWave s)) ++
       firstn 10 (List.concat (frames (issued cp2130_ (op_setFrequency 0) s))) ++
       [ 0xc0; 0x00 ])%list;
      List.concat (frames (issued cp2130_ (op_setAmplitude 0) s)) ] /\
  skipn 10 (List.concat (frames (issued cp2130_ (op_setFrequency 0) s))) = [ 0xd0; 0x00 ] /\
  flat_map prefixes (frames (issued cp2130_ op_clear s)) =
    [ 0x0; 0x1; 0x2; 0x3; 0x4; 0xc; 0xc ] /\
  ((0 <= f)%Q -> (f <= 25000)%Q ->
   exists hi, flat_map prefixes (frames (issued cp2130_ (op_setFrequency f) s)) =
              [ 0x1; 0x2; 0x3; 0x4; 0xc; 0xd ] /\
              nth 10 (List.concat (frames (issued cp2130_ (op_setFrequency f) s))) 0 = hi /\
              hi / 16 = 0xd).
Proof.
  rewrite !DriverFacts.issued_eq.
  assert (C0 : frequencyCode 0 = 0) by (vm_compute; reflexivity).
  assert (A0 : amplitudeCode 0 = 0) by (vm_compute; reflexivity).
  assert (R0 : rejected (op_setFrequency 0) = false) by reflexivity.
  assert (R1 : rejected (op_setAmplitude 0) = false) by reflexivity.
  rewrite R0, R1. cbn [frames List.concat app]. rewrite C0, A0.
  conjuncts; try reflexivity.
  intros H0 H1.
  assert (A : rejected (op_setFrequency f) = false)
    by (apply DriverFacts.accepted_frequency; split; assumption).
  rewrite A. cbn [frames List.concat flat_map]. rewrite !app_nil_r.
  destruct (frequencyFrame_tags (frequencyCode f)) as (_ & _ & T8 & T10 & _).
  exists (nth 10 (frequencyFrame (frequencyCode f)) 0).
  conjuncts; try reflexivity; try exact T10.
  revert T8 T10. unfold frequencyFrame. cbn [nth prefixes].
  intros T8 T10. rewrite T8, T10. reflexivity.
Qed.

(** ** The two versions *)

(** X12. [setAmplitude] and [setFrequency] of version 0.2.1, which make
    their GPIO writes in place, do exactly what those of version 1.0.0 do:
    the same state results, refused calls included. *)
Theorem version_0_2_1_agrees
        (cp2130_ : list event -> event -> Z * string)
        (amplitude frequency : float) (s : state) :
  GF1Device_0_2_1.setAmplitude cp2130_ amplitude s = setAmplitude cp2130_ amplitude s /\
  GF1Device_0_2_1.setFrequency cp2130_ frequency s = setFrequency cp2130_ frequency s.
Proof.
  split.
  - reflexivity.
  - unfold GF1Device_0_2_1.setFrequency, setFrequency.
    destruct (float_lt frequency FREQUENCY_MIN || float_lt FREQUENCY_MAX frequency);
      reflexivity.
Qed.

(** ** Reading the hardware revision back *)

Module RevisionFacts.

Lemma to_int_proper (n : Z) :
  Z.to_int n <> Decimal.Pos Decimal.Nil /\ Z.to_int n <> Decimal.Neg Decimal.Nil.
Proof.
  destruct n as [|p|p]; cbn; split; try discriminate;
    intros H; injection H; apply DecimalPos.Unsigned.to_uint_nonnil.
Qed.

Lemma decimal_inj (n m : Z) : decimal n = decimal m -> n = m.
Proof.
  unfold decimal. intros H.
  apply DecimalZ.to_int_inj.
  destruct (to_int_proper n) as (N1 & N2), (to_int_proper m) as (M1 & M2).
  pose proof (NilZero.isi _ N1 N2) as In.
  pose proof (NilZero.isi _ M1 M2) as Im.
  rewrite H in In. rewrite In in Im. injection Im. trivial.
Qed.

(** A decimal number starts with a digit or a minus sign, never a letter. *)
Lemma decimal_head (n : Z) (c : ascii) (rest : string) :
  decimal n = String c rest -> (nat_of_ascii c < 65)%nat.
Proof.
  unfold decimal.
  destruct (Z.to_int n) as [d|d]; cbn [NilZero.string_of_int];
    [destruct d; cbn [NilZero.string_of_uint]|];
    intros H; try discriminate H; injection H as <- _;
    vm_compute; lia.
Qed.

Lemma majorLetter_eq (c : USBConfig) :
  2 <= majrel c <= 27 ->
  exists a, majorLetter c = String a EmptyString /\
            Z.of_nat (nat_of_ascii a) = majrel c + 63.
Proof.
  intros H. unfold majorLetter.
  destruct (Z.ltb_spec 1 (majrel c)), (Z.leb_spec (majrel c) 27); try lia.
  cbn [andb]. eexists. split; [reflexivity|].
  rewrite Z.mod_small by lia.
  rewrite nat_ascii_embedding by lia. lia.
Qed.

Lemma majorLetter_none (c : USBConfig) :
  ~ 2 <= majrel c <= 27 -> majorLetter c = EmptyString.
Proof.
  intros H. unfold majorLetter.
  destruct (Z.ltb_spec 1 (majrel c)), (Z.leb_spec (majrel c) 27);
    try reflexivity; lia.
Qed.

Lemma minorNumber_eq (c : USBConfig) :
  minorNumber c =
    if (majrel c =? 1) || negb (minrel c =? 0) then decimal (minrel c) else EmptyString.
Proof. reflexivity. Qed.

Lemma hardwareRevision_eq (c : USBConfig) :
  hardwareRevision c = (majorLetter c ++ minorNumber c)%string.
Proof. reflexivity. Qed.

End RevisionFacts.

(** X6. The revision string is empty exactly when the minor release number
    is 0 and the major release number is 0 or above 27.  A major release
    number outside 1..27 leaves no mark at all -- the string is the minor
    number, or empty -- so that a non-zero minor number reads the same under
    major 0, under major 1 and under every major above 27. *)
Theorem hardware_revision_empty (c : USBConfig) :
  (hardwareRevision c = EmptyString <->
   minrel c = 0 /\ ~ 1 <= majrel c <= 27) /\
  (~ 1 <= majrel c <= 27 ->
   hardwareRevision c =
     if minrel c =? 0 then EmptyString else decimal (minrel c)) /\
  (minrel c <> 0 -> ~ 2 <= majrel c <= 27 ->
   hardwareRevision c = hardwareRevision {| majrel := 1; minrel := minrel c |}).
Proof.
  assert (N : ~ 2 <= majrel c <= 27 ->
              hardwareRevision c =
                if (majrel c =? 1) || negb (minrel c =? 0)
                then decimal (minrel c) else EmptyString).
  { intros H.
    rewrite RevisionFacts.hardwareRevision_eq, RevisionFacts.minorNumber_eq.
    rewrite RevisionFacts.majorLetter_none by exact H. reflexivity. }
  split; [split|split].
  - intros H.
    destruct (Z_le_dec 2 (majrel c)) as [A|A];
      [destruct (Z_le_dec (majrel c) 27) as [B|B]|].
    + destruct (RevisionFacts.majorLetter_eq c (conj A B)) as (a & La & _).
      rewrite RevisionFacts.hardwareRevision_eq, La in H. discriminate H.
    + rewrite N in H by lia.
      destruct (Z.eqb_spec (majrel c) 1), (Z.eqb_spec (minrel c) 0);
        cbn [orb negb] in H; try (destruct (decimal_not_empty _ H)).
      split; [assumption | lia].
    + rewrite N in H by lia.
      destruct (Z.eqb_spec (majrel c) 1), (Z.eqb_spec (minrel c) 0);
        cbn [orb negb] in H; try (destruct (decimal_not_empty _ H)).
      split; [assumption | lia].
  - intros (H0 & HM). rewrite N by lia.
    destruct (Z.eqb_spec (majrel c) 1), (Z.eqb_spec (minrel c) 0);
      cbn [orb negb]; try reflexivity; lia.
  - intros HM. rewrite N by lia.
    destruct (Z.eqb_spec (majrel c) 1), (Z.eqb_spec (minrel c) 0);
      cbn [orb negb]; try reflexivity; lia.
  - intros H0 HM. rewrite N by lia.
    rewrite RevisionFacts.hardwareRevision_eq, RevisionFacts.minorNumber_eq.
    cbn [majrel minrel].
    destruct (Z.eqb_spec (majrel c) 1), (Z.eqb_spec (minrel c) 0);
      cbn [orb negb]; try reflexivity; lia.
Qed.

(** X7. For the major release numbers 1 to 27 the revision string tells the
    revision: two configurations with the same string have the same major
    and the same minor release number. *)
Theorem hardware_revision_is_injective (c c' : USBConfig) :
  1 <= majrel c <= 27 -> 1 <= majrel c' <= 27 ->
  hardwareRevision c = hardwareRevision c' ->
  c = c'.
Proof.
  intros M M'.
  rewrite !RevisionFacts.hardwareRevision_eq, !RevisionFacts.minorNumber_eq.
  assert (T : forall x y, majrel x = majrel y -> minrel x = minrel y -> x = y)
    by (intros [] [] ? ?; cbn in *; subst; reflexivity).
  assert (tail_inj : forall m m',
             (if negb (m =? 0) then decimal m else EmptyString) =
             (if negb (m' =? 0) then decimal m' else EmptyString) -> m = m').
  { intros m m'.
    destruct (Z.eqb_spec m 0), (Z.eqb_spec m' 0); cbn [negb]; intros H.
    - lia.
    - symmetry in H. destruct (decimal_not_empty _ H).
    - destruct (decimal_not_empty _ H).
    - apply RevisionFacts.decimal_inj. exact H. }
  destruct (Z.eqb_spec (majrel c) 1) as [E|E],
           (Z.eqb_spec (majrel c') 1) as [E'|E']; cbn [orb].
  - rewrite !RevisionFacts.majorLetter_none by lia. cbn [append].
    intros H. apply T; [lia | apply RevisionFacts.decimal_inj; exact H].
  - rewrite (RevisionFacts.majorLetter_none c) by lia.
    destruct (RevisionFacts.majorLetter_eq c') as (a & La & Na); [lia|].
    rewrite La. cbn [append]. intros H.
    apply RevisionFacts.decimal_head in H. lia.
  - rewrite (RevisionFacts.majorLetter_none c') by lia.
    destruct (RevisionFacts.majorLetter_eq c) as (a & La & Na); [lia|].
    rewrite La. cbn [append]. intros H. symmetry in H.
    apply RevisionFacts.decimal_head in H. lia.
  - destruct (RevisionFacts.majorLetter_eq c) as (a & La & Na); [lia|].
    destruct (RevisionFacts.majorLetter_eq c') as (a' & La' & Na'); [lia|].
    rewrite La, La'. cbn [append]. intros H. injection H as Ha Ht.
    apply T; [subst a'; lia | apply tail_inj; exact Ht].
Qed.

(** X7, at revisions B1 and B1. *)
Lemma hardware_revision_is_injective_witness :
  hardwareRevision {| majrel := 3; minrel := 1 |} = "B1"%string /\
  {| majrel := 3; minrel := 1 |} = {| majrel := 1 + 2; minrel := 1 |}.
Proof.
  split; [reflexivity|].
  apply (hardware_revision_is_injective
           {| majrel := 3; minrel := 1 |} {| majrel := 1 + 2; minrel := 1 |});
    cbn; try lia; reflexivity.
Defined.

(** ** From the code back to the value *)

Module RoundTripFacts.

Import IEEE754 IEEE754Facts ConversionFacts.
Local Open Scope Q_scope.

Lemma expectedAmplitude_decodes (v : Q) :
  0 <= v -> v <= 5 ->
  expectedAmplitude v =
    fdiv (fmul (inject_Z (amplitudeCode v)) AMPLITUDE_MAX) (float_of_uint AQUANTUM).
Proof.
  intros H0 H1. unfold expectedAmplitude.
  destruct (amplitudeQuotient_range v H0 H1) as [R0 _].
  destruct (amplitudeCode_half_up v H0 H1) as [E _].
  rewrite (round_away_nonneg _ R0), <- E. reflexivity.
Qed.

Lemma expectedFrequency_decodes (f : Q) :
  0 <= f -> f <= 25000 ->
  expectedFrequency f =
    fdiv (fmul (inject_Z (frequencyCode f)) MCLK) (float_of_uint FQUANTUM).
Proof.
  intros H0 H1. unfold expectedFrequency.
  destruct (frequencyQuotient_range f H0 H1) as [R0 _].
  destruct (frequencyCode_half_up f H0 H1) as [E _].
  rewrite (round_away_nonneg _ R0), <- E. reflexivity.
Qed.

(** The amplitude of a code is in range and has that code. *)
Lemma amplitude_of_code (n : Z) :
  (0 <= n <= 255)%Z ->
  let y := fdiv (fmul (inject_Z n) AMPLITUDE_MAX) (float_of_uint AQUANTUM) in
  binary32 y = true /\ 0 <= y /\ y <= 5 /\ amplitudeCode y = n.
Proof.
  intros [N0 N1]. unfold fdiv, fmul. rewrite AQUANTUM_float. unfold AMPLITUDE_MAX.
  rewrite Zle_Qle in N0, N1.
  change (inject_Z 0) with 0 in N0. change (inject_Z 255) with 255 in N1.
  set (m := inject_Z n) in *.
  pose proof (round32_error (m * 5) 11) as E1.
  change (2 ^ 11) with 2048 in E1.
  change (2 ^ (Z.max (11 - 24) (-149) - 1)) with (1 # 16384) in E1.
  specialize (E1 ltac:(lra) ltac:(lra)).
  apply Qabs_Qle_condition in E1.
  assert (P0 : 0 <= round32 (m * 5)) by (apply round32_nonneg; lra).
  assert (P1 : round32 (m * 5) <= 1275).
  { assert (E : round32 1275 = 1275) by (vm_compute; reflexivity).
    rewrite <- E. apply round32_le; lra. }
  set (p := round32 (m * 5)) in *.
  pose proof (round32_error (p / 255) 3) as E2.
  change (2 ^ 3) with 8 in E2.
  change (2 ^ (Z.max (3 - 24) (-149) - 1)) with (1 # 4194304) in E2.
  specialize (E2 ltac:(lraq) ltac:(lraq)).
  apply Qabs_Qle_condition in E2.
  assert (Y0 : 0 <= round32 (p / 255)) by (apply round32_nonneg; lraq).
  assert (Y1 : round32 (p / 255) <= 5).
  { assert (E : round32 5 = 5) by (vm_compute; reflexivity).
    rewrite <- E. apply round32_le; lraq. }
  assert (YB : binary32 (round32 (p / 255)) = true)
    by (apply binary32_round; lraq).
  set (y := round32 (p / 255)) in *. cbv zeta.
  split; [exact YB | split; [exact Y0 | split; [exact Y1 |]]].
  destruct (amplitudeCode_half_up y Y0 Y1) as [E _]. rewrite E.
  pose proof (amplitudeQuotient_error y Y0 Y1) as EQ.
  apply Qabs_Qle_condition in EQ.
  apply Qfloor_eq; fold m; lraq.
Qed.

(** The frequency of a code up to that of 16384 kHz is in range and has
    that code. *)
Lemma frequency_of_code (n : Z) :
  (0 <= n <= 5497558)%Z ->
  let y := fdiv (fmul (inject_Z n) MCLK) (float_of_uint FQUANTUM) in
  binary32 y = true /\ 0 <= y /\ y <= 16384 /\ frequencyCode y = n.
Proof.
  intros [N0 N1].
  destruct (Z.eq_dec n 0) as [Nz|Nnz].
  { subst n. cbv zeta. conjuncts; evaluate. }
  unfold fdiv, fmul. rewrite FQUANTUM_float. unfold MCLK.
  assert (M0 : 1 <= inject_Z n).
  { change 1 with (inject_Z 1). rewrite <- Zle_Qle. lia. }
  rewrite Zle_Qle in N1. change (inject_Z 5497558) with 5497558 in N1.
  set (m := inject_Z n) in *.
  pose proof (round32_error (m * 50000) 38) as E1.
  change (2 ^ 38) with 274877906944 in E1.
  change (2 ^ (Z.max (38 - 24) (-149) - 1)) with 8192 in E1.
  specialize (E1 ltac:(lra) ltac:(lra)).
  apply Qabs_Qle_condition in E1.
  assert (P0 : 50000 <= round32 (m * 50000)).
  { assert (E : round32 50000 = 50000) by (vm_compute; reflexivity).
    rewrite <- E at 1. apply round32_le; lra. }
  assert (P1 : round32 (m * 50000) <= 274877906944).
  { assert (E : round32 274877906944 = 274877906944) by (vm_compute; reflexivity).
    rewrite <- E. apply round32_le; lra. }
  assert (PB : binary32 (round32 (m * 50000)) = true)
    by (apply binary32_round; lra).
  set (p := round32 (m * 50000)) in *.
  pose proof (FQUANTUM_div_exact p PB P0) as Y.
  assert (YB : binary32 (round32 (p / 16777216)) = true)
    by (apply binary32_round; lraq).
  set (y := round32 (p / 16777216)) in *. cbv zeta.
  assert (Y0 : 0 <= y) by (rewrite Y; lraq).
  assert (Y1 : y <= 16384) by (rewrite Y; lraq).
  split; [exact YB | split; [exact Y0 | split; [exact Y1 |]]].
  destruct (frequencyCode_half_up y Y0 ltac:(lra)) as [E _]. rewrite E.
  rewrite frequencyQuotient_eq.
  pose proof (FQUANTUM_exact y YB Y0) as T.
  set (t := round32 (y * 16777216)) in *.
  pose proof (round32_error (t / 50000) 23) as E3.
  change (2 ^ 23) with 8388608 in E3.
  change (2 ^ (Z.max (23 - 24) (-149) - 1)) with (1 # 4) in E3.
  specialize (E3 ltac:(lraq) ltac:(lraq)).
  apply Qabs_Qle_condition in E3.
  apply Qfloor_eq; fold m; lraq.
Qed.

End RoundTripFacts.

(** X8. The amplitude that [setAmplitude] is expected to produce is a fixed
    point of the driver: for a request in [0, 5] V, [expectedAmplitude] is
    again in [0, 5] V, asking for it writes the same byte as the request did,
    and its own expected amplitude is itself.  It is a [float].  Every byte
    0..255 is the code of some [float] in [0, 5] V, which [setAmplitude]
    accepts. *)
Theorem amplitude_round_trip (v : Q) :
  (0 <= v)%Q -> (v <= 5)%Q ->
  (0 <= expectedAmplitude v)%Q /\ (expectedAmplitude v <= 5)%Q /\
  amplitudeCode (expectedAmplitude v) = amplitudeCode v /\
  expectedAmplitude (expectedAmplitude v) = expectedAmplitude v /\
  binary32 (expectedAmplitude v) = true /\
  (forall n : Z, 0 <= n <= 255 ->
   exists w : Q, binary32 w = true /\ (0 <= w)%Q /\ (w <= 5)%Q /\
                 rejected (op_setAmplitude w) = false /\
                 amplitudeCode w = n).
Proof.
  intros H0 H1.
  destruct (ConversionFacts.amplitudeCode_half_up v H0 H1) as [_ C].
  destruct (RoundTripFacts.amplitude_of_code _ C) as (YB & Y0 & Y1 & YC).
  rewrite <- (RoundTripFacts.expectedAmplitude_decodes v H0 H1) in YB, Y0, Y1, YC.
  conjuncts; try assumption.
  - rewrite (RoundTripFacts.expectedAmplitude_decodes _ Y0 Y1), YC.
    symmetry. apply RoundTripFacts.expectedAmplitude_decodes; assumption.
  - intros n N.
    destruct (RoundTripFacts.amplitude_of_code n N) as (WB & W0 & W1 & WC).
    eexists. conjuncts; [exact WB | exact W0 | exact W1 | | exact WC].
    apply DriverFacts.accepted_amplitude. split; [exact W0 | exact W1].
Qed.

(** X8, at 2.5 V. *)
Lemma amplitude_round_trip_witness :
  amplitudeCode (expectedAmplitude (5 # 2)) = amplitudeCode (5 # 2) /\
  expectedAmplitude (expectedAmplitude (5 # 2)) = expectedAmplitude (5 # 2).
Proof.
  destruct (amplitude_round_trip (5 # 2)) as (_ & _ & A & B & _);
    [vm_compute; discriminate | vm_compute; discriminate |].
  split; [exact A | exact B].
Defined.

(** The round trip of the frequency breaks above 16384 kHz, where a [float]
    no longer tells neighbouring codes apart: the expected frequency of
    16386.048828125 kHz (code 5498246) is 16386.05078125 kHz, whose code is
    5498247 and whose expected frequency is 16386.052734375 kHz. *)
Lemma frequency_round_trip_breaks_above_16384 :
  binary32 (8389657 # 512) = true /\
  frequencyCode (8389657 # 512) = 5498246 /\
  expectedFrequency (8389657 # 512) = 4194829 # 256 /\
  frequencyCode (4194829 # 256) = 5498247 /\
  expectedFrequency (4194829 # 256) = 8389659 # 512.
Proof. conjuncts; evaluate. Qed.

(** X9. Up to 16384 kHz the frequency that [setFrequency] is expected to
    produce is a fixed point of the driver: for a request in [0, 16384] kHz,
    [expectedFrequency] is again in [0, 16384] kHz, asking for it writes the
    same code as the request did, and its own expected frequency is itself.
    It is a [float].  Every code up to 5497558, the code of 16384 kHz, is
    the code of some [float] in that range, which [setFrequency] accepts. *)
Theorem frequency_round_trip (f : Q) :
  (0 <= f)%Q -> (f <= 16384)%Q ->
  (0 <= expectedFrequency f)%Q /\ (expectedFrequency f <= 16384)%Q /\
  frequencyCode (expectedFrequency f) = frequencyCode f /\
  expectedFrequency (expectedFrequency f) = expectedFrequency f /\
  binary32 (expectedFrequency f) = true /\
  (forall n : Z, 0 <= n <= frequencyCode 16384 ->
   exists g : Q, binary32 g = true /\ (0 <= g)%Q /\ (g <= 16384)%Q /\
                 rejected (op_setFrequency g) = false /\
                 frequencyCode g = n).
Proof.
  intros H0 H1.
  assert (C16 : frequencyCode 16384 = 5497558) by (vm_compute; reflexivity).
  assert (H2 : (f <= 25000)%Q) by lra.
  destruct (ConversionFacts.frequencyCode_half_up f H0 H2) as [_ [C0 _]].
  pose proof (ConversionFacts.frequencyCode_le f 16384 H0 H1 ltac:(lra)) as C1.
  rewrite C16 in *.
  destruct (RoundTripFacts.frequency_of_code _ (conj C0 C1)) as (YB & Y0 & Y1 & YC).
  rewrite <- (RoundTripFacts.expectedFrequency_decodes f H0 H2) in YB, Y0, Y1, YC.
  conjuncts; try assumption.
  - rewrite (RoundTripFacts.expectedFrequency_decodes _ Y0 ltac:(lra)), YC.
    symmetry. apply RoundTripFacts.expectedFrequency_decodes; assumption.
  - intros n N.
    destruct (RoundTripFacts.frequency_of_code n N) as (WB & W0 & W1 & WC).
    eexists. conjuncts; [exact WB | exact W0 | exact W1 | | exact WC].
    apply DriverFacts.accepted_frequency. split; [exact W0 | lra].
Qed.

(** X9, at 1000 kHz. *)
Lemma frequency_round_trip_witness :
  frequencyCode (expectedFrequency 1000) = frequencyCode 1000 /\
  expectedFrequency (expectedFrequency 1000) = expectedFrequency 1000.
Proof.
  destruct (frequency_round_trip 1000) as (_ & _ & A & B & _);
    [vm_compute; discriminate | vm_compute; discriminate |].
  split; [exact A | exact B].
Defined.



(** ** Pulses on the control lines *)

(** X11. Whatever the pins were before, an operation raises "CTRL"
    (GPIO.2) exactly once if it is [start], [setSineWave], [setTriangleWave]
    or an accepted [setFrequency], and never otherwise; it raises
    "INTERRUPT" (GPIO.3) exactly once if it is [stop] or an accepted
    [setFrequency], and never otherwise.  So [clear] and [setAmplitude]
    pulse neither line.  Where "CTRL" is pulsed, the pulse is the last thing
    the operation does, after all its transfers. *)
Theorem control_pulses
        (cp2130_ : list event -> event -> Z * string)
        (o : operation) (s : state) (p : pins) :
  let ctrl := match o with
              | op_start | op_setSineWave | op_setTriangleWave => true
              | op_setFrequency _ => negb (rejected o)
              | _ => false
              end in
  let interrupt := match o with
                   | op_stop => true
                   | op_setFrequency _ => negb (rejected o)
                   | _ => false
                   end in
  rises gpio2 p (issued cp2130_ o s) = (if ctrl then 1 else 0)%nat /\
  rises gpio3 p (issued cp2130_ o s) = (if interrupt then 1 else 0)%nat /\
  (ctrl = true ->
   exists t, issued cp2130_ o s = t ++ [ setGPIO2 true; setGPIO2 false ] /\
             frames t = frames (issued cp2130_ o s) /\
             rises gpio2 p t = 0%nat).
Proof.
  cbv zeta. rewrite DriverFacts.issued_eq.
  destruct o;
    try destruct (rejected (op_setAmplitude amplitude));
    try destruct (rejected (op_setFrequency frequency));
    cbn [negb];
    (split; [|split]);
    try (intros H; discriminate H);
    try (cbn; destruct (gpio2 p), (gpio3 p); reflexivity);
    intros _;
    match goal with
    | |- exists t, ?l = _ /\ _ =>
        exists (firstn (List.length l - 2) l)
    end;
    cbn; destruct (gpio2 p), (gpio3 p); repeat split.
Qed.

(** ** Errors over a run *)

Lemma none_refused (os : list operation) :
  Z.of_nat (List.length (filter rejected os)) = 0 <->
  forallb (fun o => negb (rejected o)) os = true.
Proof.
  induction os as [|o os IH]; cbn [filter forallb].
  - split; reflexivity.
  - destruct (rejected o); cbn [negb andb List.length].
    + rewrite Nat2Z.inj_succ. split; [lia | discriminate].
    + exact IH.
Qed.

Lemma run_quiet_errstr (os : list operation) (s : state) :
  errstr (run_all quiet os s) =
    (errstr s ++
     fold_right append EmptyString (map refusal (filter rejected os)))%string.
Proof.
  revert s. induction os as [|o os IH]; intros s.
  - cbn. symmetry. apply RunFacts.append_nil_r.
  - rewrite RunFacts.run_all_cons, IH.
    rewrite (proj2 (RunFacts.exec_errors quiet o s)).
    cbn [filter]. destruct (rejected o).
    + cbn [map fold_right]. apply RunFacts.append_assoc.
    + rewrite RunFacts.reports_quiet. cbn [snd].
      rewrite RunFacts.append_nil_r. reflexivity.
Qed.

Lemma run_errstr_prefix (cp2130_ : list event -> event -> Z * string)
      (os : list operation) (s : state) :
  prefix (errstr s) (errstr (run_all cp2130_ os s)) = true.
Proof.
  revert s. induction os as [|o os IH]; intros s.
  - cbn. replace (errstr s) with (errstr s ++ EmptyString)%string at 2
      by apply RunFacts.append_nil_r.
    apply RunFacts.prefix_append.
  - rewrite RunFacts.run_all_cons.
    apply (RunFacts.prefix_trans _ (errstr (exec cp2130_ o s))); [|apply IH].
    rewrite (proj2 (RunFacts.exec_errors cp2130_ o s)).
    apply RunFacts.prefix_append.
Qed.

(** X13. Errors accumulate.  From a counter within the limits of an [int],
    a run of operations sets the error counter to its value plus what the
    bridge reported for all the calls of the run plus one for every refused
    request, added up as an [int]; the counter stays within the limits.
    Over a bridge that fails nowhere the messages of the refused requests
    are appended in order and, as long as the sum does not exceed
    [INT_MAX], the counter is unchanged exactly when nothing was refused.
    Over any bridge, no run alters what the error string already held; and
    if the bridge reports no negative count and the sum does not exceed
    [INT_MAX], no run lowers the counter.  (Beyond [INT_MAX] the counter
    wraps around.) *)
Theorem errors_accumulate
        (cp2130_ : list event -> event -> Z * string)
        (os : list operation) (s : state) :
  INT_MIN <= errcnt s <= INT_MAX ->
  let refused := Z.of_nat (List.length (filter rejected os)) in
  let reported :=
    fst (reports cp2130_ (trace s)
           (flat_map (fun o => issued cp2130_ o s) os)) in
  errcnt (run_all cp2130_ os s) = int_wrap (errcnt s + reported + refused) /\
  INT_MIN <= errcnt (run_all cp2130_ os s) <= INT_MAX /\
  errcnt (run_all quiet os s) = int_wrap (errcnt s + refused) /\
  errstr (run_all quiet os s) =
    (errstr s ++
     fold_right append EmptyString (map refusal (filter rejected os)))%string /\
  (errcnt s + refused <= INT_MAX ->
   errcnt (run_all quiet os s) = errcnt s + refused /\
   (errcnt (run_all quiet os s) = errcnt s <->
    forallb (fun o => negb (rejected o)) os = true)) /\
  prefix (errstr s) (errstr (run_all cp2130_ os s)) = true /\
  ((forall t e, 0 <= fst (cp2130_ t e)) ->
   errcnt s + reported + refused <= INT_MAX ->
   errcnt (run_all cp2130_ os s) = errcnt s + reported + refused /\
   errcnt s <= errcnt (run_all cp2130_ os s)).
Proof.
  intros V refused reported.
  pose proof (RunFacts.run_errcnt cp2130_ os s s V) as C.
  fold refused reported in C.
  pose proof (RunFacts.run_errcnt quiet os s s V) as Cq.
  rewrite RunFacts.reports_quiet in Cq. cbn [fst] in Cq.
  rewrite Z.add_0_r in Cq. fold refused in Cq.
  assert (N : 0 <= refused) by apply Nat2Z.is_nonneg.
  split; [|split; [|split; [|split; [|split; [|split]]]]].
  - exact C.
  - rewrite C. apply DriverFacts.int_wrap_range.
  - exact Cq.
  - apply run_quiet_errstr.
  - intros B.
    assert (E : errcnt (run_all quiet os s) = errcnt s + refused).
    { rewrite Cq. apply DriverFacts.int_wrap_small. lia. }
    split; [exact E|]. rewrite E, <- none_refused. fold refused. lia.
  - apply run_errstr_prefix.
  - intros H B.
    pose proof (RunFacts.reports_nonneg cp2130_ (trace s)
                  (flat_map (fun o => issued cp2130_ o s) os) H) as R.
    fold reported in R.
    assert (E : errcnt (run_all cp2130_ os s) = errcnt s + reported + refused).
    { rewrite C. apply DriverFacts.int_wrap_small. lia. }
    split; [exact E | lia].
Qed.

(** X13, for a run with two refused requests, and a third refused request
    at [INT_MAX]. *)
Lemma errors_accumulate_witness :
  errcnt (run_all quiet [ op_setAmplitude 6; op_start; op_setFrequency (-1) ]
            fresh) = 2 /\
  errcnt (run_all quiet [ op_setAmplitude 6 ]
            {| errcnt := INT_MAX; errstr := EmptyString; trace := [] |}) = INT_MIN.
Proof.
  split.
  - destruct (errors_accumulate quiet
                [ op_setAmplitude 6; op_start; op_setFrequency (-1) ] fresh)
      as (_ & _ & _ & _ & E & _);
      [vm_compute; split; discriminate|].
    destruct E as [E _]; [vm_compute; discriminate | exact E].
  - destruct (errors_accumulate quiet [ op_setAmplitude 6 ]
                {| errcnt := INT_MAX; errstr := EmptyString; trace := [] |})
      as (_ & _ & E & _);
      [vm_compute; split; discriminate|].
    rewrite E. reflexivity.
Defined.

(** ** What a frame tells *)



